(** * Phulkari Bagh storefront page: product view derivation, incremental
      reveal and cart update

    A shallow embedding of the logic of [src/app/page.tsx] (the [Home]
    component): the price parsing [Number(price.replace(/[^\d]/g, ""))],
    the [filteredProducts] / [sortedProducts] / [visibleProducts] chain, the
    IntersectionObserver callback that grows [visibleCount], the effect that
    resets it, and [handleAddToCart]; further on, the two loaders
    [fetchProducts] and [fetchCart], the WhatsApp enquiry link and
    [getInitials] of the user menu.

    Conventions of the model.
    - The strings of a product, a cart item and a user identifier are Rocq
      [string]s holding the text in UTF-8; [===] on strings is
      [String.eqb]. Where the code looks at single UTF-16 code units
      ([charAt], [encodeURIComponent]) strings are lists of code units.
    - [String.prototype.toLowerCase] and [String.prototype.localeCompare] are
      supplied by the host (ICU data, locale); they are the two fields of the
      class [StringRuntime], and what is assumed of them is a hypothesis of
      the theorem that needs it.
    - The value of [Number(s)] is modelled exactly for the strings the page
      passes to it (decimal digits only): the decimal value rounded to the
      nearest binary64, ties to even, overflowing to [+Infinity].
    - The quantities of the cart and their total are binary64 numbers, the
      [spec_float] of the standard library with [prec = 53] and
      [emax = 1024], and [+] on them is [SFadd]: they come from the server
      unchecked. The window size [visibleCount] is an integer in [Z].
    - React state setters are applied in program order; an [await] is a node
      of the program tree whose continuation receives the outcome. *)

From Stdlib Require Import ZArith PArith NArith List String Ascii Bool Lia.
From Stdlib Require Import Sorting.Sorted Sorting.Permutation.
From Stdlib Require Import Structures.OrderedTypeEx.
From Stdlib Require Import Floats.SpecFloat.
Import ListNotations.

Open Scope string_scope.
Open Scope Z_scope.

(* ================================================================= *)
(** ** JavaScript values used by the page *)

(** The numbers that can arise from the page's arithmetic on prices:
    integer-valued doubles, the two infinities and NaN. *)
Inductive number : Type :=
  | Finite (z : Z)
  | PosInfinity
  | NegInfinity
  | NaN.

Definition two53 : Z := 9007199254740992.

(** Rounding of a non-negative integer to 53 significant bits, ties to even
    (the binary64 significand), with an unbounded exponent. *)
Definition roundTiesToEven (n : Z) : Z :=
  if n <? two53 then n
  else
    let e := Z.log2 n - 52 in
    let q := Z.shiftr n e in
    let r := Z.land n (Z.ones e) in
    let half := Z.shiftl 1 (e - 1) in
    let q' := if r <? half then q
              else if half <? r then q + 1
              else if Z.even q then q else q + 1 in
    Z.shiftl q' e.

(** The Number value for a mathematical integer: round the magnitude, keep
    the sign, overflow to an infinity from 2^1024 on. *)
Definition toDouble (z : Z) : number :=
  let m := roundTiesToEven (Z.abs z) in
  if m <? Z.shiftl 1 1024 then Finite (Z.sgn z * m)
  else if z <? 0 then NegInfinity else PosInfinity.

(** [\d] of a JavaScript regular expression: the code units 0x30..0x39. *)
Definition isDigit (c : ascii) : bool :=
  let n := N_of_ascii c in ((48 <=? n) && (n <=? 57))%N.

Definition digitValue (c : ascii) : Z := Z.of_N (N_of_ascii c) - 48.

(** [s.replace(/[^\d]/g, "")]: every code unit that is not a digit is
    removed, the others stay in order. *)
Fixpoint replaceNonDigits (s : string) : string :=
  match s with
  | EmptyString => EmptyString
  | String c s' =>
      if isDigit c then String c (replaceNonDigits s') else replaceNonDigits s'
  end.

(** Mathematical value of a string of decimal digits, most significant
    first; [None] when some character is not a digit. *)
Fixpoint decimalValue (acc : Z) (s : string) : option Z :=
  match s with
  | EmptyString => Some acc
  | String c s' =>
      if isDigit c then decimalValue (10 * acc + digitValue c) s' else None
  end.

(** [Number(s)] on the strings the page applies it to: the empty string is
    [+0], a string of decimal digits is its value as a double. The other
    numeric literal forms (sign, white space, exponent, hexadecimal) do not
    occur after [replaceNonDigits]; a string with another character is
    mapped to [NaN] here. *)
Definition Number (s : string) : number :=
  match decimalValue 0 s with
  | Some n => toDouble n
  | None => NaN
  end.

(** Subtraction of doubles, on the values of [number]. *)
Definition numberSub (a b : number) : number :=
  match a, b with
  | NaN, _ | _, NaN => NaN
  | Finite x, Finite y => toDouble (x - y)
  | Finite _, PosInfinity => NegInfinity
  | Finite _, NegInfinity => PosInfinity
  | PosInfinity, PosInfinity => NaN
  | PosInfinity, _ => PosInfinity
  | NegInfinity, NegInfinity => NaN
  | NegInfinity, _ => NegInfinity
  end.

(** What [Array.prototype.sort] reads from a comparator's result: its sign,
    with [NaN] taken as [+0]. *)
Definition sortOrder (v : number) : Z :=
  match v with
  | Finite z => Z.sgn z
  | PosInfinity => 1
  | NegInfinity => -1
  | NaN => 0
  end.

(** [Array.prototype.sort(cmp)] on a copy: the sort is stable, and for a
    consistent comparator its result is the unique stable ordering, which
    insertion from the right computes. *)
Fixpoint insertSorted {A : Type} (cmp : A -> A -> number) (x : A) (l : list A)
  : list A :=
  match l with
  | [] => [x]
  | y :: l' =>
      if sortOrder (cmp x y) <=? 0 then x :: y :: l'
      else y :: insertSorted cmp x l'
  end.

Definition sort {A : Type} (cmp : A -> A -> number) (l : list A) : list A :=
  fold_right (insertSorted cmp) [] l.

(** [a.slice(0, n)]: a negative [n] counts from the end. *)
Definition slice0 {A : Type} (l : list A) (n : Z) : list A :=
  let len := Z.of_nat (List.length l) in
  let stop := if n <? 0 then Z.max (len + n) 0 else Z.min n len in
  firstn (Z.to_nat stop) l.

(** [s.includes(t)]: [t] occurs in [s] at some position. *)
Fixpoint includes (s t : string) : bool :=
  if prefix t s then true
  else match s with
       | EmptyString => false
       | String _ s' => includes s' t
       end.

(** The two string operations the host supplies. *)
Class StringRuntime : Type := {
  toLowerCase : string -> string;
  localeCompare : string -> string -> Z
}.

(** A comparator the sort can rely on: the sign flips when the arguments
    are swapped, and "before" is transitive. *)
Class ConsistentCompare (rt : StringRuntime) : Prop := {
  localeCompare_swap :
    forall a b, Z.sgn (localeCompare a b) = - Z.sgn (localeCompare b a);
  localeCompare_trans :
    forall a b c,
      localeCompare a b < 0 -> localeCompare b c < 0 -> localeCompare a c < 0
}.

(** A runtime to run the page on: lowercasing of the letters A-Z and
    comparison by code units. *)
Definition lowerAscii (c : ascii) : ascii :=
  let n := N_of_ascii c in
  if ((65 <=? n) && (n <=? 90))%N then ascii_of_N (n + 32) else c.

Fixpoint lowerString (s : string) : string :=
  match s with
  | EmptyString => EmptyString
  | String c s' => String (lowerAscii c) (lowerString s')
  end.

Definition compareCodeUnits (a b : string) : Z :=
  match String_as_OT.cmp a b with
  | Lt => -1
  | Eq => 0
  | Gt => 1
  end.

Definition codeUnitRuntime : StringRuntime :=
  {| toLowerCase := lowerString; localeCompare := compareCodeUnits |}.

Definition isAsciiString (s : string) : bool :=
  forallb (fun c => (N_of_ascii c <? 128)%N) (list_ascii_of_string s).

(** What every host does on ASCII text: [toLowerCase] maps the letters A-Z
    to a-z and leaves the other characters. *)
Class AsciiLowerCasing (rt : StringRuntime) : Prop := {
  toLowerCase_ascii :
    forall s, isAsciiString s = true -> toLowerCase s = lowerString s
}.

(** *** A runtime that knows the Greek letters

    Lower-casing for text made of ASCII characters and the letters of the
    Greek alphabet (U+0391..U+03A9, U+03B1..U+03C9), as the Unicode
    Character Database has it: each capital goes to its small letter, and
    capital sigma goes to the final form when the Final_Sigma condition
    of SpecialCasing holds (a cased letter before it, possibly with
    case-ignorable characters in between, and no cased letter after it).
    In UTF-8 the capitals are CE 91..CE A9, the small letters CE B1..CE BF
    and CF 80..CF 89. *)
Definition isAsciiLetter (c : ascii) : bool :=
  let n := N_of_ascii c in
  (((65 <=? n) && (n <=? 90)) || ((97 <=? n) && (n <=? 122)))%N.

(** The ASCII characters with the property Case_Ignorable:
    apostrophe, full stop, colon, circumflex and grave accent. *)
Definition isCaseIgnorableAscii (c : ascii) : bool :=
  let n := N_of_ascii c in
  ((n =? 39) || (n =? 46) || (n =? 58) || (n =? 94) || (n =? 96))%N.

Definition isGreekCapital (lead second : N) : bool :=
  ((lead =? 206) && (145 <=? second) && (second <=? 169)
   && negb (second =? 162))%N.

Definition isGreekSmall (lead second : N) : bool :=
  (((lead =? 206) && (177 <=? second) && (second <=? 191))
   || ((lead =? 207) && (128 <=? second) && (second <=? 137)))%N.

(** Whether a cased letter follows, case-ignorable characters apart. *)
Fixpoint followedByCased (s : string) : bool :=
  match s with
  | EmptyString => false
  | String c rest =>
      if isAsciiLetter c then true
      else if isCaseIgnorableAscii c then followedByCased rest
      else match rest with
           | String c2 _ =>
               isGreekCapital (N_of_ascii c) (N_of_ascii c2)
               || isGreekSmall (N_of_ascii c) (N_of_ascii c2)
           | EmptyString => false
           end
  end.

(** [afterCased]: a cased letter stands before the current position,
    case-ignorable characters apart. *)
Fixpoint greekLowerFrom (afterCased : bool) (s : string) : string :=
  match s with
  | EmptyString => EmptyString
  | String c rest =>
      let n := N_of_ascii c in
      if (n <? 128)%N then
        String (lowerAscii c)
          (greekLowerFrom
             (if isAsciiLetter c then true
              else if isCaseIgnorableAscii c then afterCased else false)
             rest)
      else
        match rest with
        | EmptyString => String c EmptyString
        | String c2 rest2 =>
            let m := N_of_ascii c2 in
            if isGreekCapital n m then
              if (m =? 163)%N then
                if afterCased && negb (followedByCased rest2)
                then String "207" (String "130" (greekLowerFrom true rest2))
                else String "207" (String "131" (greekLowerFrom true rest2))
              else if (m <? 160)%N then
                String "206" (String (ascii_of_N (m + 32))
                  (greekLowerFrom true rest2))
              else
                String "207" (String (ascii_of_N (m - 32))
                  (greekLowerFrom true rest2))
            else if isGreekSmall n m then
              String c (String c2 (greekLowerFrom true rest2))
            else String c (greekLowerFrom false rest)
        end
  end.

Definition greekRuntime : StringRuntime :=
  {| toLowerCase := greekLowerFrom false; localeCompare := compareCodeUnits |}.

(** The name made of capital alpha and capital sigma, and the search term
    capital sigma. *)
Definition alphaSigma : string :=
  String "206" (String "145" (String "206" (String "163" EmptyString))).

Definition sigma : string := String "206" (String "163" EmptyString).

(* ================================================================= *)
(** ** Numbers of the cart: binary64 *)

Definition double : Type := spec_float.

(** [a + b] on numbers. *)
Definition jsAdd (a b : double) : double := SFadd 53 1024 a b.

(** The Number value of an integer literal or count. *)
Definition jsNumber (z : Z) : double := binary_normalize 53 1024 z 0 false.

Arguments jsAdd : simpl never.
Arguments jsNumber : simpl never.


(** The integer a number is, if it is one. *)
Definition integerValue (d : double) : option Z :=
  match d with
  | S754_zero _ => Some 0
  | S754_finite s m e =>
      let sign := if s then -1 else 1 in
      if 0 <=? e then Some (sign * (Zpos m * 2 ^ e))
      else if Zpos m mod 2 ^ (- e) =? 0
           then Some (sign * (Zpos m / 2 ^ (- e)))
           else None
  | S754_infinity _ | S754_nan => None
  end.

(** [p] with [n] zero bits appended. *)
Definition shiftBits (n : nat) (p : positive) : positive := Nat.iter n xO p.

(** What [JSON.stringify] writes for a number: the number itself when it is
    finite, negative zero as [0], and [null] for an infinity or NaN.
    [None] is [null]. *)
Definition jsonOfDouble (d : double) : option double :=
  match d with
  | S754_zero _ => Some (S754_zero false)
  | S754_finite _ _ _ => Some d
  | S754_infinity _ | S754_nan => None
  end.

Definition jsonOfNumber (v : number) : option Z :=
  match v with
  | Finite z => Some z
  | PosInfinity | NegInfinity | NaN => None
  end.

(* ================================================================= *)
(** ** Strings as UTF-16 code units *)

Definition codeUnit : Type := N.

Definition jsString : Type := list codeUnit.

(** The code units of an ASCII text of the source. *)
Definition unitsOf (s : string) : jsString :=
  map N_of_ascii (list_ascii_of_string s).

Definition isHighSurrogate (u : codeUnit) : bool :=
  ((55296 <=? u) && (u <=? 56319))%N.

Definition isLowSurrogate (u : codeUnit) : bool :=
  ((56320 <=? u) && (u <=? 57343))%N.

Definition isSurrogate (u : codeUnit) : bool :=
  isHighSurrogate u || isLowSurrogate u.

(* ================================================================= *)
(** ** Data model *)

(** [interface Product]. The optional [justIn] is [None] when absent. *)
Record Product : Type := {
  _id : string;
  name : string;
  price : string;
  desc : option string;
  colors : option (list string);
  sizes : option (list string);
  justIn : option bool;
  defaultImage : string
}.

(** [interface CartItem]; its [name] and [price] fields are [item_name] and
    [item_price] here, the names being taken by [Product]. A price is what
    [handleAddToCart] parsed; a quantity is any number, the items of a
    loaded cart being taken from the response as they are. An item has
    the four fields of the interface. *)
Record CartItem : Type := {
  productId : string;
  item_name : string;
  item_price : number;
  quantity : double
}.

(** The part of a Firebase [User] the page reads. *)
Record User : Type := {
  uid : string
}.

(* ================================================================= *)
(** ** Derived data: filtering, sorting, the visible window *)

(** [Number(p.price.replace(/[^\d]/g, ""))], as written in the two price
    comparators and in [handleAddToCart]. *)
Definition priceNum (price : string) : number :=
  Number (replaceNonDigits price).

Section Derivation.

Context {rt : StringRuntime}.

(** The predicate of [products.filter(...)] in [filteredProducts]. *)
Definition keepProduct (searchTerm filterJustIn : string) (p : Product)
  : bool :=
  includes (toLowerCase (name p)) (toLowerCase searchTerm)
  && (if filterJustIn =? "" then true
      else if filterJustIn =? "justIn"
           then match justIn p with Some true => true | _ => false end
           else match justIn p with Some false => true | _ => false end)%string.

Definition filteredProducts (products : list Product)
  (searchTerm filterJustIn : string) : list Product :=
  filter (keepProduct searchTerm filterJustIn) products.

(** The four comparators of [sortedProducts]. *)
Definition cmpNameAsc (a b : Product) : number :=
  Finite (localeCompare (name a) (name b)).

Definition cmpNameDesc (a b : Product) : number :=
  Finite (localeCompare (name b) (name a)).

Definition cmpPriceAsc (a b : Product) : number :=
  let priceA := priceNum (price a) in
  let priceB := priceNum (price b) in
  numberSub priceA priceB.

Definition cmpPriceDesc (a b : Product) : number :=
  let priceA := priceNum (price a) in
  let priceB := priceNum (price b) in
  numberSub priceB priceA.

Definition sortedProducts (filtered : list Product) (sortOption : string)
  : list Product :=
  (if sortOption =? "name-asc" then sort cmpNameAsc filtered
   else if sortOption =? "name-desc" then sort cmpNameDesc filtered
   else if sortOption =? "price-asc" then sort cmpPriceAsc filtered
   else if sortOption =? "price-desc" then sort cmpPriceDesc filtered
   else filtered)%string.

Definition visibleProducts (sorted : list Product) (visibleCount : Z)
  : list Product :=
  slice0 sorted visibleCount.

(** *** View state and the effects that change [visibleCount] *)

Record ViewState : Type := {
  products : list Product;
  searchTerm : string;
  sortOption : string;
  filterJustIn : string;
  visibleCount : Z
}.

(** The [useState] initial values. *)
Definition initialView : ViewState :=
  {| products := [];
     searchTerm := "";
     sortOption := "name-asc";
     filterJustIn := "";
     visibleCount := 10 |}.

Definition viewSorted (st : ViewState) : list Product :=
  sortedProducts
    (filteredProducts (products st) (searchTerm st) (filterJustIn st))
    (sortOption st).

Definition viewLength (st : ViewState) : Z :=
  Z.of_nat (List.length (viewSorted st)).

Definition setVisibleCount (st : ViewState) (n : Z) : ViewState :=
  {| products := products st;
     searchTerm := searchTerm st;
     sortOption := sortOption st;
     filterJustIn := filterJustIn st;
     visibleCount := n |}.

(** The IntersectionObserver callback. [visibleCount] and [len] are the
    values of the render that created the observer; [prev] is the state
    the functional update receives. The result is the next state value. *)
Definition observerCallback (visibleCount len : Z) (isIntersecting : bool)
  (prev : Z) : Z :=
  if isIntersecting && (visibleCount <? len)
  then Z.min (prev + 10) len
  else prev.

(** What the user and the loader can do to the view. *)
Inductive ViewEvent : Type :=
  | SetSearchTerm (s : string)
  | SetSortOption (s : string)
  | SetFilterJustIn (s : string)
  | SetProducts (data : list Product)
  | SentinelEntry (isIntersecting : bool).

(** Whether an event changes one of the dependencies
    [[searchTerm, sortOption, filterJustIn, products]] of the reset effect.
    Strings are compared by value; [setProducts(data)] installs the array
    just decoded from the response, a new object each time. *)
Definition changesInputs (st : ViewState) (ev : ViewEvent) : bool :=
  match ev with
  | SetSearchTerm s => negb (s =? searchTerm st)%string
  | SetSortOption s => negb (s =? sortOption st)%string
  | SetFilterJustIn s => negb (s =? filterJustIn st)%string
  | SetProducts _ => true
  | SentinelEntry _ => false
  end.

(** The state setter of the event alone. *)
Definition applySetter (st : ViewState) (ev : ViewEvent) : ViewState :=
  match ev with
  | SetSearchTerm s =>
      {| products := products st; searchTerm := s;
         sortOption := sortOption st; filterJustIn := filterJustIn st;
         visibleCount := visibleCount st |}
  | SetSortOption s =>
      {| products := products st; searchTerm := searchTerm st;
         sortOption := s; filterJustIn := filterJustIn st;
         visibleCount := visibleCount st |}
  | SetFilterJustIn s =>
      {| products := products st; searchTerm := searchTerm st;
         sortOption := sortOption st; filterJustIn := s;
         visibleCount := visibleCount st |}
  | SetProducts data =>
      {| products := data; searchTerm := searchTerm st;
         sortOption := sortOption st; filterJustIn := filterJustIn st;
         visibleCount := visibleCount st |}
  | SentinelEntry isIntersecting =>
      setVisibleCount st
        (observerCallback (visibleCount st) (viewLength st) isIntersecting
           (visibleCount st))
  end.

(** The effect "Reset visible count when filtered/sorted products change":
    it runs when one of its dependencies changed. *)
Definition resetEffect (depsChanged : bool) (st : ViewState) : ViewState :=
  if depsChanged then setVisibleCount st 10 else st.

(** One event: the setter, then the effects of the render it causes. The
    result is the state once those effects have run; the render in
    between is in [rendersOf]. *)
Definition viewStep (st : ViewState) (ev : ViewEvent) : ViewState :=
  resetEffect (changesInputs st ev) (applySetter st ev).

Definition viewRun (evs : list ViewEvent) : ViewState :=
  fold_left viewStep evs initialView.

(** The states the page renders for one event. A setter that changes an
    input causes a render with the new input and the window as it was;
    the reset effect runs after that render and causes the next one. *)
Definition rendersOf (st : ViewState) (ev : ViewEvent) : list ViewState :=
  if changesInputs st ev
  then [applySetter st ev; viewStep st ev]
  else [viewStep st ev].

Fixpoint rendersFrom (st : ViewState) (evs : list ViewEvent)
  : list ViewState :=
  match evs with
  | [] => []
  | ev :: evs' => rendersOf st ev ++ rendersFrom (viewStep st ev) evs'
  end.

(** Every state rendered while the events [evs] are handled, the first
    render included. *)
Definition renderedStates (evs : list ViewEvent) : list ViewState :=
  initialView :: rendersFrom initialView evs.

End Derivation.
(* ================================================================= *)
(** ** The add-to-cart handler *)

(** The object passed to [JSON.stringify]. *)
Record CartBody : Type := {
  userId : string;
  items : list CartItem
}.

(** The text [JSON.stringify] produces, as the JSON document it denotes:
    strings and finite numbers are written as they are, a price or a
    quantity that is not finite is written [null] ([None]), negative zero
    is written [0]. *)
Record JsonItem : Type := {
  json_productId : string;
  json_name : string;
  json_price : option Z;
  json_quantity : option double
}.

Record JsonBody : Type := {
  json_userId : string;
  json_items : list JsonItem
}.

Definition stringifyItem (item : CartItem) : JsonItem :=
  {| json_productId := productId item;
     json_name := item_name item;
     json_price := jsonOfNumber (item_price item);
     json_quantity := jsonOfDouble (quantity item) |}.

Definition JSON_stringify (b : CartBody) : JsonBody :=
  {| json_userId := userId b;
     json_items := map stringifyItem (items b) |}.

Record Request : Type := {
  url : string;
  method : string;
  headers : list (string * string);
  body : JsonBody
}.

(** A [Response], as far as the handler looks at it. *)
Record Response : Type := {
  ok : bool
}.

(** How the promise returned by [fetch] settles. *)
Inductive FetchOutcome : Type :=
  | Resolved (res : Response)
  | Rejected (reason : string).

(** The options object passed to both toasts. *)
Record ToastOptions : Type := {
  position : string;
  autoClose : Z;
  hideProgressBar : bool;
  closeOnClick : bool;
  pauseOnHover : bool;
  draggable : bool
}.

(** Programs of the handler: a tree of the effects it performs, in order.
    [Fetch] is the [await]: the rest of the program waits for the outcome. *)
Inductive Prog (A : Type) : Type :=
  | Ret (a : A)
  | Throw (e : string)
  | RouterPush (path : string) (k : Prog A)
  | SetCartItems (l : list CartItem) (k : Prog A)
  | SetCartCount (n : double) (k : Prog A)
  | Fetch (req : Request) (k : FetchOutcome -> Prog A)
  | ToastSuccess (msg : string) (opts : ToastOptions) (k : Prog A)
  | ToastError (msg : string) (opts : ToastOptions) (k : Prog A)
  | ConsoleError (args : list string) (k : Prog A).

Arguments Ret {A} a.
Arguments Throw {A} e.
Arguments RouterPush {A} path k.
Arguments SetCartItems {A} l k.
Arguments SetCartCount {A} n k.
Arguments Fetch {A} req k.
Arguments ToastSuccess {A} msg opts k.
Arguments ToastError {A} msg opts k.
Arguments ConsoleError {A} args k.

Fixpoint bind {A B : Type} (m : Prog A) (f : A -> Prog B) : Prog B :=
  match m with
  | Ret a => f a
  | Throw e => Throw e
  | RouterPush path k => RouterPush path (bind k f)
  | SetCartItems l k => SetCartItems l (bind k f)
  | SetCartCount n k => SetCartCount n (bind k f)
  | Fetch req k => Fetch req (fun o => bind (k o) f)
  | ToastSuccess msg opts k => ToastSuccess msg opts (bind k f)
  | ToastError msg opts k => ToastError msg opts (bind k f)
  | ConsoleError args k => ConsoleError args (bind k f)
  end.

(** [try { m } catch (error) { handler }]. *)
Fixpoint tryCatch {A : Type} (m : Prog A) (handler : string -> Prog A)
  : Prog A :=
  match m with
  | Ret a => Ret a
  | Throw e => handler e
  | RouterPush path k => RouterPush path (tryCatch k handler)
  | SetCartItems l k => SetCartItems l (tryCatch k handler)
  | SetCartCount n k => SetCartCount n (tryCatch k handler)
  | Fetch req k => Fetch req (fun o => tryCatch (k o) handler)
  | ToastSuccess msg opts k => ToastSuccess msg opts (tryCatch k handler)
  | ToastError msg opts k => ToastError msg opts (tryCatch k handler)
  | ConsoleError args k => ConsoleError args (tryCatch k handler)
  end.

Declare Scope prog_scope.
Delimit Scope prog_scope with prog.
Notation "x <- m ;; k" := (bind m (fun x => k))
  (at level 61, m at next level, right associativity) : prog_scope.
Notation "m ;; k" := (bind m (fun _ => k))
  (at level 61, right associativity) : prog_scope.

Definition routerPush (path : string) : Prog unit := RouterPush path (Ret tt).
Definition setCartItems (l : list CartItem) : Prog unit :=
  SetCartItems l (Ret tt).
Definition setCartCount (n : double) : Prog unit :=
  SetCartCount n (Ret tt).
Definition toastSuccess (msg : string) (opts : ToastOptions) : Prog unit :=
  ToastSuccess msg opts (Ret tt).
Definition toastError (msg : string) (opts : ToastOptions) : Prog unit :=
  ToastError msg opts (Ret tt).
Definition consoleError (args : list string) : Prog unit :=
  ConsoleError args (Ret tt).

(** [await fetch(...)]: a rejected promise is thrown at the [await]. *)
Definition awaitFetch (req : Request) : Prog Response :=
  Fetch req (fun o =>
    match o with
    | Resolved res => Ret res
    | Rejected reason => Throw reason
    end).

Definition toastOptions : ToastOptions :=
  {| position := "top-right";
     autoClose := 3000;
     hideProgressBar := false;
     closeOnClick := true;
     pauseOnHover := true;
     draggable := true |}.

(** The item with its quantity replaced: [{ ...item, quantity: q }]. *)
Definition withQuantity (item : CartItem) (q : double) : CartItem :=
  {| productId := productId item;
     item_name := item_name item;
     item_price := item_price item;
     quantity := q |}.

(** [updatedCartItems] of [handleAddToCart]: the existing item's quantity
    plus one, or the cart with a new item at its end. *)
Definition updatedCartItems (cartItems : list CartItem) (product : Product)
  : list CartItem :=
  let priceNum := priceNum (price product) in
  let existingItem :=
    find (fun item => (productId item =? _id product)%string) cartItems in
  match existingItem with
  | Some _ =>
      map (fun item =>
             if (productId item =? _id product)%string
             then withQuantity item (jsAdd (quantity item) (jsNumber 1))
             else item)
          cartItems
  | None =>
      cartItems ++
      [ {| productId := _id product;
           item_name := name product;
           item_price := priceNum;
           quantity := jsNumber 1 |} ]
  end.

(** [items.reduce((acc, item) => acc + item.quantity, 0)]. *)
Definition totalQuantity (l : list CartItem) : double :=
  fold_left (fun acc item => jsAdd acc (quantity item)) l (jsNumber 0).

(** [handleAddToCart(product)], in a render whose state is [cartItems] and
    [user]. *)
Definition handleAddToCart (cartItems : list CartItem) (user : option User)
  (product : Product) : Prog unit :=
  let updated := updatedCartItems cartItems product in
  match user with
  | None => routerPush "/signin"
  | Some u =>
      (setCartItems updated ;;
       let newCartCount := totalQuantity updated in
       setCartCount newCartCount ;;
       tryCatch
         (res <- awaitFetch
                   {| url := "/api/cart";
                      method := "POST";
                      headers := [("Content-Type", "application/json")];
                      body := JSON_stringify
                                {| userId := uid u; items := updated |} |} ;;
          if negb (ok res)
          then Throw "Failed to update cart on the server"
          else toastSuccess "Item added to Cart" toastOptions)
         (fun error =>
            consoleError ["Error updating the cart:"; error] ;;
            toastError "Error updating your cart. Please try again."
              toastOptions))%prog
  end.

(** *** Running a program on the page's state *)

(** What is observable of a run, in order. *)
Inductive Event : Type :=
  | EvRouterPush (path : string)
  | EvSetCartItems (l : list CartItem)
  | EvSetCartCount (n : double)
  | EvFetch (req : Request)
  | EvToastSuccess (msg : string) (opts : ToastOptions)
  | EvToastError (msg : string) (opts : ToastOptions)
  | EvConsoleError (args : list string).

(** The cart part of the component's state, and the trace of effects. *)
Record World : Type := {
  cartItems : list CartItem;
  cartCount : double;
  trace : list Event
}.

Definition logEvent (w : World) (ev : Event) : World :=
  {| cartItems := cartItems w; cartCount := cartCount w;
     trace := trace w ++ [ev] |}.

(** Where a run stops: finished, failed with an uncaught error, or waiting
    for the outcome of a request. *)
Inductive Status (A : Type) : Type :=
  | Done (a : A)
  | Uncaught (e : string)
  | Awaiting (req : Request) (k : FetchOutcome -> Prog A).

Arguments Done {A} a.
Arguments Uncaught {A} e.
Arguments Awaiting {A} req k.

(** Run the synchronous part of a program: up to its end or to the next
    [await]. The request is dispatched (logged) when the run stops on it. *)
Fixpoint runSync {A : Type} (m : Prog A) (w : World) : World * Status A :=
  match m with
  | Ret a => (w, Done a)
  | Throw e => (w, Uncaught e)
  | RouterPush path k => runSync k (logEvent w (EvRouterPush path))
  | SetCartItems l k =>
      runSync k
        {| cartItems := l; cartCount := cartCount w;
           trace := trace w ++ [EvSetCartItems l] |}
  | SetCartCount n k =>
      runSync k
        {| cartItems := cartItems w; cartCount := n;
           trace := trace w ++ [EvSetCartCount n] |}
  | Fetch req k => (logEvent w (EvFetch req), Awaiting req k)
  | ToastSuccess msg opts k => runSync k (logEvent w (EvToastSuccess msg opts))
  | ToastError msg opts k => runSync k (logEvent w (EvToastError msg opts))
  | ConsoleError args k => runSync k (logEvent w (EvConsoleError args))
  end.

(** Run a program to its end, the network answering each request through
    [net]. *)
Fixpoint run {A : Type} (net : Request -> FetchOutcome) (m : Prog A)
  (w : World) : World * (A + string) :=
  match m with
  | Ret a => (w, inl a)
  | Throw e => (w, inr e)
  | RouterPush path k => run net k (logEvent w (EvRouterPush path))
  | SetCartItems l k =>
      run net k
        {| cartItems := l; cartCount := cartCount w;
           trace := trace w ++ [EvSetCartItems l] |}
  | SetCartCount n k =>
      run net k
        {| cartItems := cartItems w; cartCount := n;
           trace := trace w ++ [EvSetCartCount n] |}
  | Fetch req k => run net (k (net req)) (logEvent w (EvFetch req))
  | ToastSuccess msg opts k => run net k (logEvent w (EvToastSuccess msg opts))
  | ToastError msg opts k => run net k (logEvent w (EvToastError msg opts))
  | ConsoleError args k => run net k (logEvent w (EvConsoleError args))
  end.

Definition isFetch (ev : Event) : bool :=
  match ev with EvFetch _ => true | _ => false end.

(** A click on "Add to Cart" in a render of world [w] with identity
    [user]. *)
Definition clickAddToCart (w : World) (user : option User) (product : Product)
  : Prog unit :=
  handleAddToCart (cartItems w) user product.

(* ================================================================= *)
(** ** The specification's vocabulary *)

(** The values of the digit characters of a string, in order. *)
Fixpoint digitsOf (s : string) : list Z :=
  match s with
  | EmptyString => []
  | String c s' =>
      if isDigit c then digitValue c :: digitsOf s' else digitsOf s'
  end.

(** The integer a sequence of decimal digits denotes. *)
Definition integerOfDigits (ds : list Z) : Z :=
  fold_left (fun acc d => 10 * acc + d) ds 0.

(** "The integer formed by concatenating the string's digit characters in
    order". *)
Definition digitConcat (s : string) : Z := integerOfDigits (digitsOf s).

(** "A price string containing no digit characters at all". *)
Definition noDigits (s : string) : Prop :=
  Forall (fun c => isDigit c = false) (list_ascii_of_string s).

(** A non-negative integer, as opposed to an infinity or NaN. *)
Definition nonNegativeInteger (v : number) : Prop :=
  match v with
  | Finite z => 0 <= z
  | _ => False
  end.

(** Non-negative, possibly infinite; not NaN. *)
Definition nonNegative (v : number) : Prop :=
  match v with
  | Finite z => 0 <= z
  | PosInfinity => True
  | _ => False
  end.

(** [t] occurs in [s]. *)
Definition isSubstring (t s : string) : Prop :=
  exists pre post : string, s = (pre ++ t ++ post)%string.

(** Two characters that are the same letter, case apart: the same
    character, or a capital A-Z and its small letter. *)
Definition isCapital (c : ascii) : Prop :=
  (65 <= N_of_ascii c <= 90)%N.

Definition sameLetter (a b : ascii) : Prop :=
  a = b \/
  (isCapital a /\ N_of_ascii b = (N_of_ascii a + 32)%N) \/
  (isCapital b /\ N_of_ascii a = (N_of_ascii b + 32)%N).

(** Two strings that are equal, case apart: of the same length and the
    same letter at each position. *)
Fixpoint equalIgnoringCase (s t : string) : Prop :=
  match s, t with
  | EmptyString, EmptyString => True
  | String a s', String b t' => sameLetter a b /\ equalIgnoringCase s' t'
  | _, _ => False
  end.

(** "Its name contains the search term as a case-insensitive substring":
    some part of the name equals the term, case apart. *)
Definition caseInsensitiveSubstring (searchTerm productName : string)
  : Prop :=
  exists pre part post : string,
    productName = (pre ++ part ++ post)%string /\
    equalIgnoringCase part searchTerm.

(** The three modes of the "recently added" filter. *)
Inductive RecentMode : Type :=
  | AllProducts
  | OnlyRecent
  | OnlyNotRecent.

(** The mode a value of the filter's select stands for: [""] is "All
    Products", ["justIn"] is "Just In", the remaining option is "Not Just
    In". *)
Definition recentModeOf (filterJustIn : string) : RecentMode :=
  if (filterJustIn =? "")%string then AllProducts
  else if (filterJustIn =? "justIn")%string then OnlyRecent
  else OnlyNotRecent.

(** "All passes; only-recent requires the recent flag true;
    only-not-recent requires it false". *)
Definition matchesRecent (mode : RecentMode) (p : Product) : Prop :=
  match mode with
  | AllProducts => True
  | OnlyRecent => justIn p = Some true
  | OnlyNotRecent => justIn p = Some false
  end.

(** "At most one CartItem per product identifier". *)
Definition uniqueProducts (cart : list CartItem) : Prop :=
  NoDup (map productId cart).

(** The request that persists the cart [l] for identity [u]. *)
Definition persistRequest (u : User) (l : list CartItem) : Request :=
  {| url := "/api/cart";
     method := "POST";
     headers := [("Content-Type", "application/json")];
     body := JSON_stringify {| userId := uid u; items := l |} |}.

(** "The remote persist fails": the request is rejected, or the response
    has a non-success status. *)
Definition persistFails (o : FetchOutcome) : Prop :=
  match o with
  | Resolved res => ok res = false
  | Rejected _ => True
  end.

(** The item a product not yet in the cart is added as. *)
Definition newItem (product : Product) : CartItem :=
  {| productId := _id product;
     item_name := name product;
     item_price := priceNum (price product);
     quantity := jsNumber 1 |}.

(** The item of a product with the quantity [n], an integer. *)
Definition itemOf (product : Product) (n : Z) : CartItem :=
  {| productId := _id product;
     item_name := name product;
     item_price := priceNum (price product);
     quantity := jsNumber n |}.

(** "The sum of all item quantities", for quantities that are integers. *)
Fixpoint sumOf (counts : list Z) : Z :=
  match counts with
  | [] => 0
  | n :: rest => n + sumOf rest
  end.

(** The quantities of the cart are the non-negative integers [counts], in
    order. *)
Definition quantitiesAre (cart : list CartItem) (counts : list Z) : Prop :=
  Forall2 (fun item n => 0 <= n /\ quantity item = jsNumber n) cart counts.




(** [x] may stand before [y] in the result of a sort by [cmp]. *)
Definition notAfter {A : Type} (cmp : A -> A -> number) (x y : A) : Prop :=
  sortOrder (cmp x y) <= 0.

(** The products of the specification's scenarios. *)
Definition scenarioProduct (id productName productPrice : string)
  (recent : option bool) : Product :=
  {| _id := id; name := productName; price := productPrice;
     desc := None; colors := None; sizes := None;
     justIn := recent; defaultImage := "" |}.

Definition dupatta : Product :=
  scenarioProduct "p1" "Phulkari Dupatta" "Rs 1500" (Some true).

Definition scarf : Product :=
  scenarioProduct "p2" "Phulkari Scarf" "Rs 800" (Some false).

Definition signedIn : User := {| uid := "u1" |}.

Definition emptyWorld : World :=
  {| cartItems := []; cartCount := jsNumber 0; trace := [] |}.

Section SpecVocabulary.

Context {rt : StringRuntime}.

(** The test the filter makes: the lower-cased name contains the
    lower-cased search term. *)
Definition lowerCasedContains (searchTerm productName : string) : Prop :=
  isSubstring (toLowerCase searchTerm) (toLowerCase productName).

(** "No two products have names that compare equal under the locale-aware
    comparison": at any two positions of the list. *)
Definition noNameTies (l : list Product) : Prop :=
  ForallOrdPairs (fun a b => localeCompare (name a) (name b) <> 0) l.

(** [a]'s name comes strictly after [b]'s. *)
Definition nameAfter (a b : Product) : Prop :=
  localeCompare (name b) (name a) < 0.

End SpecVocabulary.

(* ================================================================= *)
(** ** The loaders: [fetchProducts] and [fetchCart] *)

(** What [await res.json()] gives: the decoded value, or a rejection when
    the body is not JSON. *)
Inductive JsonResult (J : Type) : Type :=
  | JsonValue (v : J)
  | JsonError (reason : string).

Arguments JsonValue {J} v.
Arguments JsonError {J} reason.

(** The response to a GET, as far as the loaders look at it. *)
Record GetResponse (J : Type) : Type := {
  get_ok : bool;
  get_json : JsonResult J
}.

Arguments get_ok {J} g.
Arguments get_json {J} g.

Inductive GetOutcome (J : Type) : Type :=
  | GetResolved (res : GetResponse J)
  | GetRejected (reason : string).

Arguments GetResolved {J} res.
Arguments GetRejected {J} reason.

(** The decoded body of the cart endpoint, seen through the test
    [cartData && Array.isArray(cartData.items)]: a falsy value, or a value
    whose [items] is an array ([Some]) or is not ([None]). The elements of
    the array are taken to be cart items, as the cast in the source does. *)
Inductive CartData : Type :=
  | CartDataFalsy
  | CartDataValue (itemsArray : option (list CartItem)).

(** Programs of the loaders, over a response body of type [J]. *)
Inductive Load (J : Type) : Type :=
  | LDone
  | LThrow (e : string)
  | LGet (url : string) (k : GetOutcome J -> Load J)
  | LSetProducts (data : list Product) (k : Load J)
  | LSetProductsLoading (b : bool) (k : Load J)
  | LSetCartCount (n : double) (k : Load J)
  | LSetCartItems (l : list CartItem) (k : Load J)
  | LConsoleError (args : list string) (k : Load J).

Arguments LDone {J}.
Arguments LThrow {J} e.
Arguments LGet {J} url k.
Arguments LSetProducts {J} data k.
Arguments LSetProductsLoading {J} b k.
Arguments LSetCartCount {J} n k.
Arguments LSetCartItems {J} l k.
Arguments LConsoleError {J} args k.

(** [m; k]. *)
Fixpoint lSeq {J : Type} (m k : Load J) : Load J :=
  match m with
  | LDone => k
  | LThrow e => LThrow e
  | LGet url c => LGet url (fun o => lSeq (c o) k)
  | LSetProducts data c => LSetProducts data (lSeq c k)
  | LSetProductsLoading b c => LSetProductsLoading b (lSeq c k)
  | LSetCartCount n c => LSetCartCount n (lSeq c k)
  | LSetCartItems l c => LSetCartItems l (lSeq c k)
  | LConsoleError args c => LConsoleError args (lSeq c k)
  end.

(** [try { m } catch (error) { handler }]. *)
Fixpoint lTryCatch {J : Type} (m : Load J) (handler : string -> Load J)
  : Load J :=
  match m with
  | LDone => LDone
  | LThrow e => handler e
  | LGet url c => LGet url (fun o => lTryCatch (c o) handler)
  | LSetProducts data c => LSetProducts data (lTryCatch c handler)
  | LSetProductsLoading b c => LSetProductsLoading b (lTryCatch c handler)
  | LSetCartCount n c => LSetCartCount n (lTryCatch c handler)
  | LSetCartItems l c => LSetCartItems l (lTryCatch c handler)
  | LConsoleError args c => LConsoleError args (lTryCatch c handler)
  end.

(** [try { m } finally { fin }]: [fin] runs on both exits, and an error
    of [m] goes on after it. *)
Fixpoint lFinally {J : Type} (m fin : Load J) : Load J :=
  match m with
  | LDone => fin
  | LThrow e => lSeq fin (LThrow e)
  | LGet url c => LGet url (fun o => lFinally (c o) fin)
  | LSetProducts data c => LSetProducts data (lFinally c fin)
  | LSetProductsLoading b c => LSetProductsLoading b (lFinally c fin)
  | LSetCartCount n c => LSetCartCount n (lFinally c fin)
  | LSetCartItems l c => LSetCartItems l (lFinally c fin)
  | LConsoleError args c => LConsoleError args (lFinally c fin)
  end.

(** [const res = await fetch(url); if (!res.ok) throw new Error(msg);
    const data = await res.json(); k(data)]. *)
Definition getJson {J : Type} (url msg : string) (k : J -> Load J) : Load J :=
  LGet url (fun o =>
    match o with
    | GetRejected reason => LThrow reason
    | GetResolved res =>
        if negb (get_ok res) then LThrow msg
        else match get_json res with
             | JsonError reason => LThrow reason
             | JsonValue data => k data
             end
    end).

(** [fetchProducts()] of the mount effect. *)
Definition fetchProducts : Load (list Product) :=
  lFinally
    (lTryCatch
       (getJson "/api/products" "Failed to fetch products"
          (fun data => LSetProducts data LDone))
       (fun error => LConsoleError [error] LDone))
    (LSetProductsLoading false LDone).

(** [fetchCart()] for the signed-in [user]. *)
Definition fetchCart (user : User) : Load CartData :=
  lTryCatch
    (getJson ("/api/cart?userId=" ++ uid user)%string "Failed to fetch cart"
       (fun cartData =>
          match cartData with
          | CartDataValue (Some items) =>
              let totalCount :=
                fold_left (fun acc item => jsAdd acc (quantity item)) items
                  (jsNumber 0) in
              LSetCartCount totalCount (LSetCartItems items LDone)
          | _ => LSetCartCount (jsNumber 0) (LSetCartItems [] LDone)
          end))
    (fun error => LConsoleError [error] LDone).

(** The effect with dependency [[user]]: "When authenticated, fetch the
    cart". *)
Definition cartEffect (user : option User) : Load CartData :=
  match user with
  | Some u => fetchCart u
  | None => LDone
  end.

(** The state the loaders write, with the requests sent and the errors
    logged to the console. *)
Record PageState : Type := {
  page_products : list Product;
  page_productsLoading : bool;
  page_cartItems : list CartItem;
  page_cartCount : double;
  page_requests : list string;
  page_console : list (list string)
}.

(** The [useState] initial values. *)
Definition initialPage : PageState :=
  {| page_products := [];
     page_productsLoading := true;
     page_cartItems := [];
     page_cartCount := jsNumber 0;
     page_requests := [];
     page_console := [] |}.

(** Run a loader, the network answering through [net]; the second
    component is the error the loader lets escape, if any. *)
Fixpoint runLoad {J : Type} (net : string -> GetOutcome J) (m : Load J)
  (st : PageState) : PageState * option string :=
  match m with
  | LDone => (st, None)
  | LThrow e => (st, Some e)
  | LGet url k =>
      runLoad net (k (net url))
        {| page_products := page_products st;
           page_productsLoading := page_productsLoading st;
           page_cartItems := page_cartItems st;
           page_cartCount := page_cartCount st;
           page_requests := page_requests st ++ [url];
           page_console := page_console st |}
  | LSetProducts data k =>
      runLoad net k
        {| page_products := data;
           page_productsLoading := page_productsLoading st;
           page_cartItems := page_cartItems st;
           page_cartCount := page_cartCount st;
           page_requests := page_requests st;
           page_console := page_console st |}
  | LSetProductsLoading b k =>
      runLoad net k
        {| page_products := page_products st;
           page_productsLoading := b;
           page_cartItems := page_cartItems st;
           page_cartCount := page_cartCount st;
           page_requests := page_requests st;
           page_console := page_console st |}
  | LSetCartCount n k =>
      runLoad net k
        {| page_products := page_products st;
           page_productsLoading := page_productsLoading st;
           page_cartItems := page_cartItems st;
           page_cartCount := n;
           page_requests := page_requests st;
           page_console := page_console st |}
  | LSetCartItems l k =>
      runLoad net k
        {| page_products := page_products st;
           page_productsLoading := page_productsLoading st;
           page_cartItems := l;
           page_cartCount := page_cartCount st;
           page_requests := page_requests st;
           page_console := page_console st |}
  | LConsoleError args k =>
      runLoad net k
        {| page_products := page_products st;
           page_productsLoading := page_productsLoading st;
           page_cartItems := page_cartItems st;
           page_cartCount := page_cartCount st;
           page_requests := page_requests st;
           page_console := page_console st ++ [args] |}
  end.

(** A GET that succeeded with a decoded body. *)
Definition loaded {J : Type} (o : GetOutcome J) : option J :=
  match o with
  | GetResolved res =>
      if get_ok res
      then match get_json res with JsonValue v => Some v | _ => None end
      else None
  | GetRejected _ => None
  end.

(* ================================================================= *)
(** ** The WhatsApp enquiry *)

(** What the enquiry reads of a product: its name and its price, strings
    of UTF-16 code units. *)
Record EnquiryProduct : Type := {
  enquiry_name : jsString;
  enquiry_price : jsString
}.

(** [getWhatsAppMessage(product)]. *)
Definition getWhatsAppMessage (product : EnquiryProduct) : jsString :=
  (unitsOf "I'm interested in " ++ enquiry_name product
   ++ unitsOf " priced at Rs " ++ enquiry_price product
   ++ unitsOf ". Please send me more details.")%list.

(** The code units [encodeURIComponent] leaves as they are: letters,
    digits and [- _ . ! ~ * ' ( )]. *)
Definition isUnreservedUnit (n : codeUnit) : bool :=
  (((65 <=? n) && (n <=? 90)) || ((97 <=? n) && (n <=? 122))
   || ((48 <=? n) && (n <=? 57))
   || (n =? 45) || (n =? 95) || (n =? 46) || (n =? 33) || (n =? 126)
   || (n =? 42) || (n =? 39) || (n =? 40) || (n =? 41))%N.

(** An upper-case hexadecimal digit. *)
Definition hexUnit (n : N) : codeUnit :=
  if (n <? 10)%N then (48 + n)%N else (55 + n)%N.

(** [%XX] for an octet. *)
Definition percentOctet (octet : N) : jsString :=
  [37%N; hexUnit ((octet / 16) mod 16); hexUnit (octet mod 16)].

(** The UTF-8 octets of a code point. *)
Definition utf8 (cp : N) : list N :=
  (if cp <? 128 then [cp]
   else if cp <? 2048 then [192 + cp / 64; 128 + cp mod 64]
   else if cp <? 65536
        then [224 + cp / 4096; 128 + (cp / 64) mod 64; 128 + cp mod 64]
        else [240 + cp / 262144; 128 + (cp / 4096) mod 64;
              128 + (cp / 64) mod 64; 128 + cp mod 64])%N.

(** The code point of a surrogate pair. *)
Definition codePointOfPair (high low : codeUnit) : N :=
  ((high - 55296) * 1024 + (low - 56320) + 65536)%N.

Definition percentEncode (cp : N) : jsString :=
  flat_map percentOctet (utf8 cp).

(** [encodeURIComponent(s)]; [None] when it throws a URIError, which it
    does at a surrogate that is not part of a pair. *)
Fixpoint encodeURIComponent (s : jsString) : option jsString :=
  match s with
  | [] => Some []
  | u :: rest =>
      if isUnreservedUnit u
      then option_map (cons u) (encodeURIComponent rest)
      else if isHighSurrogate u then
        match rest with
        | low :: rest' =>
            if isLowSurrogate low
            then option_map (app (percentEncode (codePointOfPair u low)))
                   (encodeURIComponent rest')
            else None
        | [] => None
        end
      else if isLowSurrogate u then None
      else option_map (app (percentEncode u)) (encodeURIComponent rest)
  end.

(** How [handleWhatsAppEnquiry(product)] ends: with a call of
    [window.open(address, target)], or with the URIError of
    [encodeURIComponent] before any window is opened. *)
Inductive EnquiryOutcome : Type :=
  | WindowOpened (address target : jsString)
  | URIErrorThrown.

Definition handleWhatsAppEnquiry (product : EnquiryProduct)
  : EnquiryOutcome :=
  match encodeURIComponent (getWhatsAppMessage product) with
  | Some message =>
      WindowOpened
        (unitsOf "https://api.whatsapp.com/send?phone=+919510394742&text="
         ++ message)%list
        (unitsOf "_blank")
  | None => URIErrorThrown
  end.

(* ================================================================= *)
(** ** The user menu: [getInitials] *)

(** The two fields of a Firebase [User] that [getInitials] reads; [None]
    is [null]. *)
Record Profile : Type := {
  displayName : option jsString;
  email : option jsString
}.

(** [s.split(" ")]: the pieces between the spaces; a string without a
    space is its own single piece. *)
Fixpoint splitSpaces (s : jsString) : list jsString :=
  match s with
  | [] => [[]]
  | u :: s' =>
      if (u =? 32)%N then [] :: splitSpaces s'
      else match splitSpaces s' with
           | piece :: rest => (u :: piece) :: rest
           | [] => [[u]]
           end
  end.

(** [s.charAt(0)]: the first code unit as a string, or the empty string. *)
Definition charAt0 (s : jsString) : jsString :=
  match s with
  | [] => []
  | u :: _ => [u]
  end.

Section UserMenu.

(** [String.prototype.toUpperCase], supplied by the host. *)
Variable toUpperCase : jsString -> jsString.

(** [getInitials(user)]. A string is "truthy" when it is not empty. *)
Definition getInitials (user : Profile) : jsString :=
  match displayName user with
  | Some (u :: rest) =>
      let names := splitSpaces (u :: rest) in
      if (List.length names =? 1)%nat
      then toUpperCase (charAt0 (hd [] names))
      else (toUpperCase (charAt0 (hd [] names))
            ++ toUpperCase (charAt0 (last names [])))%list
  | _ =>
      match email user with
      | Some (u :: rest) => toUpperCase (charAt0 (u :: rest))
      | _ => []
      end
  end.

End UserMenu.

(* ================================================================= *)
(** ** More vocabulary *)

(** The order of the numbers, NaN apart. *)
Definition numberLe (a b : number) : Prop :=
  match a, b with
  | NaN, _ | _, NaN => False
  | NegInfinity, _ => True
  | _, PosInfinity => True
  | Finite x, Finite y => x <= y
  | _, _ => False
  end.

Definition numberEqb (a b : number) : bool :=
  match a, b with
  | Finite x, Finite y => x =? y
  | PosInfinity, PosInfinity => true
  | NegInfinity, NegInfinity => true
  | NaN, NaN => true
  | _, _ => false
  end.

(** The products whose parsed price is [v]. *)
Definition hasPrice (v : number) (p : Product) : bool :=
  numberEqb (priceNum (price p)) v.

(** [a] may be listed before [b] in order of price: its parsed price is at
    most [b]'s. *)
Definition cheaperFirst (a b : Product) : Prop :=
  numberLe (priceNum (price a)) (priceNum (price b)).

(** The server accepted the write: the request resolved with a success
    status. *)
Definition persisted (o : FetchOutcome) : bool :=
  match o with
  | Resolved res => ok res
  | Rejected _ => false
  end.

(** The entries of a cart for the product [id]. *)
Definition entriesOf (id : string) (cart : list CartItem) : list CartItem :=
  filter (fun item => (productId item =? id)%string) cart.

(** What an item records of its product. *)
Definition itemIdentity (item : CartItem) : string * string * number :=
  (productId item, item_name item, item_price item).

(** The view after [k] more events in which the sentinel is fully
    visible. *)
Definition afterSentinels {rt : StringRuntime} (k : nat) (st : ViewState)
  : ViewState :=
  fold_left viewStep (repeat (SentinelEntry true) k) st.

(** The number of occurrences of a code unit. *)
Fixpoint countUnit (u : codeUnit) (s : jsString) : nat :=
  match s with
  | [] => O
  | v :: s' => ((if (v =? u)%N then 1 else 0) + countUnit u s')%nat
  end.

(** A word: no space in it. *)
Definition spaceFree (s : jsString) : Prop := ~ In 32%N s.

(** Words joined by single spaces. *)
Fixpoint joinSpaces (words : list jsString) : jsString :=
  match words with
  | [] => []
  | [w] => w
  | w :: rest => (w ++ 32%N :: joinSpaces rest)%list
  end.

(** No code unit of the string is a surrogate. *)
Definition noSurrogates (s : jsString) : Prop :=
  Forall (fun u => isSurrogate u = false) s.

(* ================================================================= *)
(** ** Price parsing *)

Lemma two53_pow : two53 = 2 ^ 53.
Proof. reflexivity. Qed.

Lemma roundTiesToEven_small (n : Z) : n <= two53 -> roundTiesToEven n = n.
Proof.
  intros Hn. unfold roundTiesToEven.
  destruct (n <? two53) eqn:E; [reflexivity|].
  apply Z.ltb_ge in E.
  assert (n = two53) as -> by lia.
  vm_compute. reflexivity.
Qed.

Lemma roundTiesToEven_nonneg (n : Z) : 0 <= n -> 0 <= roundTiesToEven n.
Proof.
  intros Hn. unfold roundTiesToEven.
  destruct (n <? two53); [assumption|].
  cbv zeta.
  set (e := Z.log2 n - 52).
  assert (Hq : 0 <= Z.shiftr n e) by (apply Z.shiftr_nonneg; assumption).
  apply Z.shiftl_nonneg.
  destruct (Z.land n (Z.ones e) <? Z.shiftl 1 (e - 1)); [assumption|].
  destruct (Z.shiftl 1 (e - 1) <? Z.land n (Z.ones e)); [lia|].
  destruct (Z.even (Z.shiftr n e)); lia.
Qed.

Lemma toDouble_exact (n : Z) : 0 <= n <= two53 -> toDouble n = Finite n.
Proof.
  intros [H0 H1]. unfold toDouble.
  rewrite Z.abs_eq by assumption.
  rewrite roundTiesToEven_small by assumption.
  assert (Hlt : (n <? Z.shiftl 1 1024) = true).
  { apply Z.ltb_lt. apply Z.le_lt_trans with two53; [assumption|].
    vm_compute. reflexivity. }
  rewrite Hlt. f_equal.
  destruct (Z.eq_dec n 0) as [->|Hne]; [reflexivity|].
  rewrite Z.sgn_pos by lia. lia.
Qed.

Lemma toDouble_nonNegative (n : Z) : 0 <= n -> nonNegative (toDouble n).
Proof.
  intros Hn. unfold toDouble.
  rewrite Z.abs_eq by assumption.
  pose proof (roundTiesToEven_nonneg n Hn) as Hr.
  destruct (roundTiesToEven n <? Z.shiftl 1 1024).
  - simpl. destruct (Z.eq_dec n 0) as [->|Hne]; [simpl; lia|].
    rewrite Z.sgn_pos by lia. lia.
  - destruct (n <? 0) eqn:E; [apply Z.ltb_lt in E; lia|].
    exact I.
Qed.

Lemma isDigit_digitValue (c : ascii) :
  isDigit c = true -> 0 <= digitValue c <= 9.
Proof.
  unfold isDigit, digitValue. cbv zeta.
  intros H. apply andb_true_iff in H. destruct H as [H1 H2].
  apply N.leb_le in H1. apply N.leb_le in H2. lia.
Qed.

(** The text left by [replaceNonDigits] is made of digits, and its decimal
    value is that of the digits of the original string. *)
Lemma decimalValue_replaceNonDigits (s : string) (acc : Z) :
  decimalValue acc (replaceNonDigits s)
  = Some (fold_left (fun a d => 10 * a + d) (digitsOf s) acc).
Proof.
  revert acc. induction s as [|c s IH]; intros acc.
  - reflexivity.
  - cbn [replaceNonDigits digitsOf].
    destruct (isDigit c) eqn:E; cbn [decimalValue fold_left].
    + rewrite E. apply IH.
    + apply IH.
Qed.

Lemma fold_digits_nonneg (ds : list Z) (acc : Z) :
  Forall (fun d => 0 <= d <= 9) ds -> 0 <= acc ->
  0 <= fold_left (fun a d => 10 * a + d) ds acc.
Proof.
  revert acc. induction ds as [|d ds IH]; intros acc Hds Hacc; cbn [fold_left].
  - assumption.
  - inversion Hds; subst. apply IH; [assumption|lia].
Qed.

Lemma digitsOf_range (s : string) : Forall (fun d => 0 <= d <= 9) (digitsOf s).
Proof.
  induction s as [|c s IH]; simpl.
  - constructor.
  - destruct (isDigit c) eqn:E; [|assumption].
    constructor; [apply isDigit_digitValue; assumption|assumption].
Qed.

Lemma digitConcat_nonneg (s : string) : 0 <= digitConcat s.
Proof.
  unfold digitConcat, integerOfDigits.
  apply fold_digits_nonneg; [apply digitsOf_range|lia].
Qed.

Lemma priceNum_toDouble (price : string) :
  priceNum price = toDouble (digitConcat price).
Proof.
  unfold priceNum, Number.
  rewrite decimalValue_replaceNonDigits. reflexivity.
Qed.

Lemma digitsOf_noDigits (s : string) : noDigits s -> digitsOf s = [].
Proof.
  unfold noDigits. induction s as [|c s IH]; simpl; intros H.
  - reflexivity.
  - inversion H; subst. rewrite H2. apply IH. assumption.
Qed.

Lemma priceNum_nonNegative (price : string) : nonNegative (priceNum price).
Proof.
  rewrite priceNum_toDouble.
  apply toDouble_nonNegative, digitConcat_nonneg.
Qed.

(** C7, as amended. Parsing a price never yields a negative number or NaN;
    and for every price string whose digit characters, read in order, form
    an integer of at most 2^53, it yields exactly that integer (so "Rs
    1,000" parses to 1000), a non-negative integer. *)
Theorem priceNum_digit_concat_safe (price : string) :
  nonNegative (priceNum price) /\
  (digitConcat price <= two53 ->
   priceNum price = Finite (digitConcat price) /\
   nonNegativeInteger (priceNum price)).
Proof.
  split; [apply priceNum_nonNegative|].
  intros Hsafe.
  assert (E : priceNum price = Finite (digitConcat price)).
  { rewrite priceNum_toDouble. apply toDouble_exact.
    split; [apply digitConcat_nonneg|assumption]. }
  split; [assumption|].
  rewrite E. simpl. apply digitConcat_nonneg.
Qed.

Lemma priceNum_digit_concat_safe_witness :
  digitConcat "Rs 1,000" <= two53 /\ priceNum "Rs 1,000" = Finite 1000.
Proof.
  assert (Hsafe : digitConcat "Rs 1,000" <= two53)
    by (apply Z.leb_le; reflexivity).
  split; [exact Hsafe|].
  exact (proj1 (proj2 (priceNum_digit_concat_safe "Rs 1,000") Hsafe)).
Defined.

(** C7 as stated fails: the digits of "Rs 9007199254740993" form
    9007199254740993 = 2^53 + 1, which no double holds; [Number] returns
    its neighbour 2^53. *)
Lemma priceNum_rounds_beyond_two53 :
  priceNum "Rs 9007199254740993" = Finite 9007199254740992 /\
  priceNum "Rs 9007199254740993"
  <> Finite (digitConcat "Rs 9007199254740993").
Proof.
  split; [vm_compute; reflexivity|].
  vm_compute. intros H. discriminate H.
Qed.

(** A price with 310 digits parses to [+Infinity], which is no integer. *)
Example scenario_price_overflow :
  priceNum (String.concat "" (repeat "9999999999" 31)) = PosInfinity.
Proof. vm_compute. reflexivity. Qed.

(** C10. For every price string with no digit character, the parsing
    returns exactly 0. *)
Theorem priceNum_no_digits (price : string) :
  noDigits price -> priceNum price = Finite 0.
Proof.
  intros H. unfold priceNum, Number.
  rewrite decimalValue_replaceNonDigits.
  rewrite (digitsOf_noDigits price H). reflexivity.
Qed.

Lemma priceNum_no_digits_witness :
  noDigits "Rs " /\ priceNum "Rs " = Finite 0 /\ priceNum "" = Finite 0.
Proof.
  assert (H : noDigits "Rs ") by (repeat constructor).
  split; [exact H|].
  split; [exact (priceNum_no_digits "Rs " H)|].
  apply (priceNum_no_digits ""). constructor.
Defined.

(* ================================================================= *)
(** ** Filtering *)

Lemma prefix_append (t s : string) :
  prefix t s = true <-> exists post : string, s = (t ++ post)%string.
Proof.
  revert s. induction t as [|a t IH]; intros s; simpl.
  - split; [intros _; exists s; reflexivity|].
    intros _. destruct s; reflexivity.
  - destruct s as [|b s]; simpl.
    + split; [discriminate|]. intros [post H]. discriminate H.
    + destruct (ascii_dec a b) as [->|Hne].
      * rewrite IH. split; intros [post H]; exists post.
        -- rewrite H. reflexivity.
        -- injection H as H. exact H.
      * split; [discriminate|]. intros [post H].
        injection H as H1 H2. congruence.
Qed.

(** [includes] finds exactly the substrings. *)
Lemma includes_isSubstring (s t : string) :
  includes s t = true <-> isSubstring t s.
Proof.
  unfold isSubstring. induction s as [|c s IH].
  - cbn [includes]. destruct (prefix t "") eqn:E.
    + split; [intros _|reflexivity].
      apply prefix_append in E. destruct E as [post E].
      exists "", post. exact E.
    + split; [discriminate|]. intros [pre [post H]].
      destruct pre; [|discriminate H].
      simpl in H. assert (prefix t "" = true) as E'
        by (apply prefix_append; exists post; exact H).
      congruence.
  - cbn [includes]. destruct (prefix t (String c s)) eqn:E.
    + split; [intros _|reflexivity].
      apply prefix_append in E. destruct E as [post E].
      exists "", post. exact E.
    + rewrite IH. split.
      * intros [pre [post H]]. exists (String c pre), post.
        rewrite H. reflexivity.
      * intros [pre [post H]]. destruct pre as [|c' pre].
        -- simpl in H. assert (prefix t (String c s) = true) as E'
             by (apply prefix_append; exists post; exact H).
           congruence.
        -- injection H as _ H. exists pre, post. exact H.
Qed.

Lemma lowerString_app (a b : string) :
  lowerString (a ++ b) = (lowerString a ++ lowerString b)%string.
Proof.
  induction a as [|c a IH]; simpl; [reflexivity|]. rewrite IH. reflexivity.
Qed.

Lemma N_of_ascii_inj (a b : ascii) : N_of_ascii a = N_of_ascii b -> a = b.
Proof.
  intros H. rewrite <- (ascii_N_embedding a), <- (ascii_N_embedding b), H.
  reflexivity.
Qed.

Lemma N_of_ascii_bound (a : ascii) : (N_of_ascii a < 256)%N.
Proof. apply N_ascii_bounded. Qed.

Lemma lowerAscii_code (a : ascii) :
  N_of_ascii (lowerAscii a)
  = (if ((65 <=? N_of_ascii a) && (N_of_ascii a <=? 90))%N
     then (N_of_ascii a + 32)%N else N_of_ascii a).
Proof.
  unfold lowerAscii. cbv zeta.
  destruct ((65 <=? N_of_ascii a) && (N_of_ascii a <=? 90))%N eqn:E;
    [|reflexivity].
  apply andb_true_iff in E. destruct E as [E1 E2].
  apply N.leb_le in E1. apply N.leb_le in E2.
  apply N_ascii_embedding. lia.
Qed.

(** Lower-casing identifies exactly the characters that are the same
    letter. *)
Lemma lowerAscii_sameLetter (a b : ascii) :
  lowerAscii a = lowerAscii b <-> sameLetter a b.
Proof.
  unfold sameLetter, isCapital. split.
  - intros H. apply (f_equal N_of_ascii) in H.
    rewrite !lowerAscii_code in H.
    destruct ((65 <=? N_of_ascii a) && (N_of_ascii a <=? 90))%N eqn:Ea;
      destruct ((65 <=? N_of_ascii b) && (N_of_ascii b <=? 90))%N eqn:Eb.
    + left. apply N_of_ascii_inj. lia.
    + apply andb_true_iff in Ea. destruct Ea as [E1 E2].
      apply N.leb_le in E1. apply N.leb_le in E2.
      right. left. split; [lia|]. symmetry. exact H.
    + apply andb_true_iff in Eb. destruct Eb as [E1 E2].
      apply N.leb_le in E1. apply N.leb_le in E2.
      right. right. split; [lia|]. exact H.
    + left. apply N_of_ascii_inj. exact H.
  - intros [H|[[Hc H]|[Hc H]]].
    + subst. reflexivity.
    + apply N_of_ascii_inj. rewrite !lowerAscii_code.
      assert (Ea : ((65 <=? N_of_ascii a) && (N_of_ascii a <=? 90))%N = true)
        by (apply andb_true_iff; split; apply N.leb_le; lia).
      assert (Eb : ((65 <=? N_of_ascii b) && (N_of_ascii b <=? 90))%N = false)
        by (apply andb_false_iff; right; apply N.leb_gt; lia).
      rewrite Ea, Eb. symmetry. exact H.
    + apply N_of_ascii_inj. rewrite !lowerAscii_code.
      assert (Eb : ((65 <=? N_of_ascii b) && (N_of_ascii b <=? 90))%N = true)
        by (apply andb_true_iff; split; apply N.leb_le; lia).
      assert (Ea : ((65 <=? N_of_ascii a) && (N_of_ascii a <=? 90))%N = false)
        by (apply andb_false_iff; right; apply N.leb_gt; lia).
      rewrite Ea, Eb. exact H.
Qed.

Lemma lowerString_equalIgnoringCase (s t : string) :
  lowerString s = lowerString t <-> equalIgnoringCase s t.
Proof.
  revert t. induction s as [|a s IH]; intros [|b t]; simpl.
  - tauto.
  - split; [discriminate|contradiction].
  - split; [discriminate|contradiction].
  - rewrite <- IH, <- lowerAscii_sameLetter. split.
    + intros H. injection H as H1 H2. split; assumption.
    + intros [H1 H2]. rewrite H1, H2. reflexivity.
Qed.

(** A string whose lower-cased form splits in two splits in two itself. *)
Lemma lowerString_split (s a b : string) :
  lowerString s = (a ++ b)%string ->
  exists s1 s2 : string,
    s = (s1 ++ s2)%string /\ lowerString s1 = a /\ lowerString s2 = b.
Proof.
  revert s. induction a as [|c a IH]; intros s H.
  - exists "", s. repeat split. exact H.
  - destruct s as [|d s]; [discriminate H|].
    simpl in H. injection H as Hc H.
    destruct (IH s H) as [s1 [s2 [E [E1 E2]]]].
    exists (String d s1), s2. simpl. rewrite <- E, E1, Hc. repeat split.
    exact E2.
Qed.

(** The sample runtime and the Greek one lower-case ASCII text as every
    host does. *)
Lemma codeUnitRuntime_ascii : AsciiLowerCasing codeUnitRuntime.
Proof. split. intros s _. reflexivity. Qed.

Lemma greekLowerFrom_ascii (afterCased : bool) (s : string) :
  isAsciiString s = true -> greekLowerFrom afterCased s = lowerString s.
Proof.
  revert afterCased. unfold isAsciiString.
  induction s as [|c s IH]; intros afterCased H; [reflexivity|].
  simpl in H. apply andb_true_iff in H. destruct H as [Hc Hs].
  cbn [greekLowerFrom lowerString]. cbv zeta. rewrite Hc.
  rewrite IH by exact Hs. reflexivity.
Qed.

Lemma greekRuntime_ascii : AsciiLowerCasing greekRuntime.
Proof. split. intros s H. apply greekLowerFrom_ascii. exact H. Qed.

Section FilterFacts.

Context {rt : StringRuntime}.

Lemma keepProduct_spec (searchTerm filterJustIn : string) (p : Product) :
  keepProduct searchTerm filterJustIn p = true <->
  lowerCasedContains searchTerm (name p) /\
  matchesRecent (recentModeOf filterJustIn) p.
Proof.
  unfold keepProduct, lowerCasedContains, recentModeOf.
  rewrite andb_true_iff, includes_isSubstring.
  apply and_iff_compat_l.
  destruct (filterJustIn =? "")%string; simpl; [tauto|].
  destruct (filterJustIn =? "justIn")%string; simpl;
    destruct (justIn p) as [[|]|]; split; intros H;
    try reflexivity; try discriminate H.
Qed.

Lemma filteredProducts_twice
  (products : list Product) (searchTerm filterJustIn : string) :
  filteredProducts (filteredProducts products searchTerm filterJustIn)
    searchTerm filterJustIn
  = filteredProducts products searchTerm filterJustIn.
Proof.
  unfold filteredProducts.
  induction products as [|p l IH]; simpl; [reflexivity|].
  destruct (keepProduct searchTerm filterJustIn p) eqn:E; simpl.
  - rewrite E, IH. reflexivity.
  - exact IH.
Qed.

Context {law : AsciiLowerCasing rt}.

(** On ASCII text the test of the filter is containment, case apart. *)
Lemma lowerCasedContains_ascii (searchTerm productName : string) :
  isAsciiString searchTerm = true -> isAsciiString productName = true ->
  (lowerCasedContains searchTerm productName <->
   caseInsensitiveSubstring searchTerm productName).
Proof.
  intros Ht Hn. unfold lowerCasedContains, caseInsensitiveSubstring.
  rewrite (toLowerCase_ascii _ Ht), (toLowerCase_ascii _ Hn).
  unfold isSubstring. split.
  - intros [pre' [post' H]].
    destruct (lowerString_split _ _ _ H) as [pre [rest [E [E1 E2]]]].
    destruct (lowerString_split _ _ _ E2) as [part [post [E' [E3 E4]]]].
    exists pre, part, post. split; [rewrite E, E'; reflexivity|].
    apply lowerString_equalIgnoringCase. exact E3.
  - intros [pre [part [post [E H]]]].
    apply lowerString_equalIgnoringCase in H.
    exists (lowerString pre), (lowerString post).
    rewrite E, !lowerString_app, H. reflexivity.
Qed.

(** C8, as amended. For a search term and a product name made of ASCII
    characters, the filter keeps the product exactly when its name
    contains the search term as a case-insensitive substring and the
    product matches the recent-filter mode. For every text, it keeps the
    product exactly when the lower-cased name includes the lower-cased
    term and the product matches the mode. Filtering the filter's output
    again with the same inputs changes nothing. *)
Theorem filteredProducts_spec_idempotent
  (products : list Product) (searchTerm filterJustIn : string) :
  (isAsciiString searchTerm = true ->
   forall p : Product, isAsciiString (name p) = true ->
     (In p (filteredProducts products searchTerm filterJustIn) <->
      In p products /\
      caseInsensitiveSubstring searchTerm (name p) /\
      matchesRecent (recentModeOf filterJustIn) p)) /\
  (forall p : Product,
     In p (filteredProducts products searchTerm filterJustIn) <->
     In p products /\
     includes (toLowerCase (name p)) (toLowerCase searchTerm) = true /\
     matchesRecent (recentModeOf filterJustIn) p) /\
  filteredProducts (filteredProducts products searchTerm filterJustIn)
    searchTerm filterJustIn
  = filteredProducts products searchTerm filterJustIn.
Proof.
  split; [|split].
  - intros Ht p Hn. unfold filteredProducts.
    rewrite filter_In, keepProduct_spec.
    rewrite (lowerCasedContains_ascii _ _ Ht Hn). reflexivity.
  - intros p. unfold filteredProducts.
    rewrite filter_In, keepProduct_spec.
    unfold lowerCasedContains. rewrite includes_isSubstring. reflexivity.
  - apply filteredProducts_twice.
Qed.

End FilterFacts.

Lemma filteredProducts_spec_idempotent_witness :
  isAsciiString "SCARF" = true /\
  isAsciiString (name scarf) = true /\
  caseInsensitiveSubstring "SCARF" (name scarf) /\
  In scarf
    (filteredProducts (rt := codeUnitRuntime) [dupatta; scarf] "SCARF" "").
Proof.
  assert (Ht : isAsciiString "SCARF" = true) by reflexivity.
  assert (Hn : isAsciiString (name scarf) = true) by reflexivity.
  assert (Hc : caseInsensitiveSubstring "SCARF" (name scarf)).
  { exists "Phulkari ", "Scarf", "". split; [reflexivity|].
    simpl. unfold sameLetter, isCapital. simpl.
    repeat split; try (left; reflexivity);
      right; right; (split; [lia|reflexivity]). }
  split; [exact Ht|]. split; [exact Hn|]. split; [exact Hc|].
  apply (proj1 (filteredProducts_spec_idempotent
                  (rt := codeUnitRuntime) (law := codeUnitRuntime_ascii)
                  [dupatta; scarf] "SCARF" "") Ht scarf Hn).
  split; [right; left; reflexivity|]. split; [exact Hc|exact I].
Defined.

(** C8 as stated fails. Under a runtime that lower-cases the Greek
    alphabet as Unicode prescribes, the name "capital alpha, capital sigma"
    becomes "small alpha, final sigma" and the term "capital sigma"
    becomes "small sigma": the name contains the term letter for letter,
    and the filter does not keep the product. *)
Lemma filteredProducts_misses_final_sigma :
  let p := scenarioProduct "p9" alphaSigma "Rs 100" None in
  In p [p] /\
  caseInsensitiveSubstring sigma (name p) /\
  matchesRecent (recentModeOf "") p /\
  ~ In p (filteredProducts (rt := greekRuntime) [p] sigma "").
Proof.
  cbv zeta. split; [left; reflexivity|]. split; [|split; [exact I|]].
  - exists (String "206" (String "145" EmptyString)), sigma, "".
    split; [reflexivity|].
    simpl. repeat split; left; reflexivity.
  - vm_compute. intros H. exact H.
Qed.

(* ================================================================= *)
(** ** Sorting *)

Section SortFacts.

Variable A : Type.
Variable cmp : A -> A -> number.

Lemma insertSorted_permutation (x : A) (l : list A) :
  Permutation (insertSorted cmp x l) (x :: l).
Proof.
  induction l as [|y l IH]; simpl.
  - apply Permutation_refl.
  - destruct (sortOrder (cmp x y) <=? 0).
    + apply Permutation_refl.
    + apply perm_trans with (y :: x :: l).
      * apply perm_skip. exact IH.
      * apply perm_swap.
Qed.

Lemma sort_permutation (l : list A) : Permutation (sort cmp l) l.
Proof.
  induction l as [|x l IH]; simpl.
  - apply perm_nil.
  - apply perm_trans with (x :: sort cmp l).
    + apply insertSorted_permutation.
    + apply perm_skip. exact IH.
Qed.

Hypothesis cmp_total : forall x y, ~ notAfter cmp x y -> notAfter cmp y x.

Lemma insertSorted_hdrel (a x : A) (l : list A) :
  notAfter cmp a x -> HdRel (notAfter cmp) a l ->
  HdRel (notAfter cmp) a (insertSorted cmp x l).
Proof.
  intros Hax Hal. destruct l as [|y l]; simpl.
  - constructor. exact Hax.
  - destruct (sortOrder (cmp x y) <=? 0).
    + constructor. exact Hax.
    + constructor. inversion Hal; subst. assumption.
Qed.

Lemma insertSorted_sorted (x : A) (l : list A) :
  Sorted (notAfter cmp) l -> Sorted (notAfter cmp) (insertSorted cmp x l).
Proof.
  induction l as [|y l IH]; intros Hs; simpl.
  - repeat constructor.
  - destruct (sortOrder (cmp x y) <=? 0) eqn:E.
    + constructor; [exact Hs|]. constructor.
      unfold notAfter. apply Z.leb_le. exact E.
    + inversion Hs; subst. constructor.
      * apply IH. assumption.
      * apply insertSorted_hdrel; [|assumption].
        apply cmp_total. unfold notAfter. apply Z.leb_gt in E. lia.
Qed.

Lemma sort_sorted (l : list A) : Sorted (notAfter cmp) (sort cmp l).
Proof.
  induction l as [|x l IH]; simpl.
  - constructor.
  - apply insertSorted_sorted. exact IH.
Qed.

End SortFacts.

Lemma ForallOrdPairs_permutation {A : Type} (R : A -> A -> Prop)
  (l l' : list A) :
  (forall x y, R x y -> R y x) ->
  Permutation l l' -> ForallOrdPairs R l -> ForallOrdPairs R l'.
Proof.
  intros Hsym Hp. induction Hp as [|x l l' Hp IH|x y l|l l' l'' _ IH1 _ IH2];
    intros H.
  - exact H.
  - inversion H; subst. constructor.
    + apply Permutation_Forall with l; assumption.
    + apply IH. assumption.
  - inversion H as [|? ? Hy Hrest]; subst.
    inversion Hrest as [|? ? Hx Hl]; subst.
    inversion Hy as [|? ? Hyx Hyl]; subst.
    constructor.
    + constructor; [apply Hsym; exact Hyx|exact Hx].
    + constructor; assumption.
  - apply IH2, IH1, H.
Qed.

Lemma StronglySorted_snoc {A : Type} (R : A -> A -> Prop) (l : list A) (x : A) :
  StronglySorted R l -> Forall (fun y => R y x) l ->
  StronglySorted R (l ++ [x]).
Proof.
  induction l as [|a l IH]; intros Hs Hf; simpl.
  - repeat constructor.
  - inversion Hs; subst. inversion Hf; subst. constructor.
    + apply IH; assumption.
    + apply Forall_app. split; [assumption|]. repeat constructor. assumption.
Qed.

Lemma StronglySorted_rev {A : Type} (R : A -> A -> Prop) (l : list A) :
  StronglySorted R l -> StronglySorted (fun x y => R y x) (rev l).
Proof.
  induction l as [|a l IH]; intros Hs; simpl.
  - constructor.
  - inversion Hs as [|? ? Hl Ha]; subst.
    apply StronglySorted_snoc; [apply IH; exact Hl|].
    apply Forall_rev. exact Ha.
Qed.

(** Two orderings of the same elements by an asymmetric relation agree. *)
Lemma StronglySorted_unique {A : Type} (R : A -> A -> Prop) (l1 l2 : list A) :
  (forall x y, R x y -> R y x -> False) ->
  StronglySorted R l1 -> StronglySorted R l2 -> Permutation l1 l2 ->
  l1 = l2.
Proof.
  intros Hasym. revert l2.
  induction l1 as [|a t1 IH]; intros l2 H1 H2 Hp.
  - apply Permutation_nil in Hp. symmetry. exact Hp.
  - destruct l2 as [|b t2].
    + apply Permutation_sym, Permutation_nil in Hp. discriminate Hp.
    + inversion H1 as [|? ? Ht1 Ha]; subst.
      inversion H2 as [|? ? Ht2 Hb]; subst.
      assert (Hab : a = b).
      { assert (Hin_a : In a (b :: t2))
          by (apply Permutation_in with (a :: t1);
              [exact Hp|left; reflexivity]).
        assert (Hin_b : In b (a :: t1))
          by (apply Permutation_in with (b :: t2);
              [apply Permutation_sym; exact Hp|left; reflexivity]).
        destruct Hin_a as [E|Hat2]; [symmetry; exact E|].
        destruct Hin_b as [E|Hbt1]; [exact E|].
        exfalso. apply (Hasym a b).
        - rewrite Forall_forall in Ha. apply Ha. exact Hbt1.
        - rewrite Forall_forall in Hb. apply Hb. exact Hat2. }
      subst b. f_equal. apply IH; [exact Ht1|exact Ht2|].
      apply Permutation_cons_inv with a. exact Hp.
Qed.

(** A weakly sorted list without ties is strictly sorted. *)
Lemma Sorted_strict {A : Type} (le lt ne : A -> A -> Prop) (l : list A) :
  (forall x y, le x y -> ne x y -> lt x y) ->
  Sorted le l -> ForallOrdPairs ne l -> Sorted lt l.
Proof.
  intros Hlt. induction l as [|a l IH]; intros Hs Hn.
  - constructor.
  - inversion Hs as [|? ? Hl Hhd]; subst.
    inversion Hn as [|? ? Hna Hnl]; subst.
    constructor; [apply IH; assumption|].
    destruct l as [|b l]; constructor.
    inversion Hhd; subst. inversion Hna; subst.
    apply Hlt; assumption.
Qed.

(** Comparison by code units is a consistent comparator. *)
Lemma compareCodeUnits_consistent : ConsistentCompare codeUnitRuntime.
Proof.
  split; simpl; unfold compareCodeUnits.
  - intros a b. rewrite (String_as_OT.cmp_antisym a b).
    destruct (String_as_OT.cmp b a); reflexivity.
  - intros a b c Hab Hbc.
    assert (Lab : String_as_OT.cmp a b = Lt)
      by (destruct (String_as_OT.cmp a b); [lia|reflexivity|lia]).
    assert (Lbc : String_as_OT.cmp b c = Lt)
      by (destruct (String_as_OT.cmp b c); [lia|reflexivity|lia]).
    apply String_as_OT.cmp_lt in Lab. apply String_as_OT.cmp_lt in Lbc.
    pose proof (String_as_OT.lt_trans _ _ _ Lab Lbc) as Lac.
    apply String_as_OT.cmp_lt in Lac. rewrite Lac. lia.
Qed.

Section NameSort.

Context {rt : StringRuntime} {cc : ConsistentCompare rt}.

Lemma cmpNameAsc_total (x y : Product) :
  ~ notAfter cmpNameAsc x y -> notAfter cmpNameAsc y x.
Proof.
  unfold notAfter, cmpNameAsc. simpl.
  pose proof (localeCompare_swap (name x) (name y)). lia.
Qed.

Lemma cmpNameDesc_total (x y : Product) :
  ~ notAfter cmpNameDesc x y -> notAfter cmpNameDesc y x.
Proof.
  unfold notAfter, cmpNameDesc. simpl.
  pose proof (localeCompare_swap (name x) (name y)). lia.
Qed.

Lemma noNameTies_permutation (l l' : list Product) :
  Permutation l l' -> noNameTies l -> noNameTies l'.
Proof.
  unfold noNameTies. apply ForallOrdPairs_permutation.
  intros x y H E. apply H.
  pose proof (localeCompare_swap (name x) (name y)) as Hs.
  rewrite E in Hs. simpl in Hs.
  destruct (localeCompare (name x) (name y)); simpl in Hs;
    [reflexivity|discriminate Hs|discriminate Hs].
Qed.

Lemma nameAfter_asymmetric (x y : Product) :
  nameAfter x y -> nameAfter y x -> False.
Proof.
  unfold nameAfter. intros H1 H2.
  pose proof (localeCompare_swap (name x) (name y)). lia.
Qed.

Lemma nameAfter_transitive : Relation_Definitions.transitive _ nameAfter.
Proof.
  intros x y z Hxy Hyz. unfold nameAfter in *.
  apply (localeCompare_trans (name z) (name y) (name x)); assumption.
Qed.

(** With no ties among the names, the name-descending sort lists the
    products strictly from the last name to the first. *)
Lemma sort_name_desc_strict (l : list Product) :
  noNameTies l -> StronglySorted nameAfter (sort cmpNameDesc l).
Proof.
  intros Hn.
  apply Sorted_StronglySorted; [exact nameAfter_transitive|].
  apply Sorted_strict with
    (le := notAfter cmpNameDesc)
    (ne := fun a b => localeCompare (name a) (name b) <> 0).
  - intros x y Hle Hne. unfold notAfter, cmpNameDesc in Hle. simpl in Hle.
    unfold nameAfter.
    pose proof (localeCompare_swap (name x) (name y)). lia.
  - apply sort_sorted. exact cmpNameDesc_total.
  - apply noNameTies_permutation with l; [|exact Hn].
    apply Permutation_sym, sort_permutation.
Qed.

(** And the name-ascending sort lists them strictly from the first name to
    the last. *)
Lemma sort_name_asc_strict (l : list Product) :
  noNameTies l ->
  StronglySorted (fun a b => nameAfter b a) (sort cmpNameAsc l).
Proof.
  intros Hn.
  apply Sorted_StronglySorted.
  { intros x y z Hxy Hyz. exact (nameAfter_transitive z y x Hyz Hxy). }
  apply Sorted_strict with
    (le := notAfter cmpNameAsc)
    (ne := fun a b => localeCompare (name a) (name b) <> 0).
  - intros x y Hle Hne. unfold notAfter, cmpNameAsc in Hle. simpl in Hle.
    unfold nameAfter. lia.
  - apply sort_sorted. exact cmpNameAsc_total.
  - apply noNameTies_permutation with l; [|exact Hn].
    apply Permutation_sym, sort_permutation.
Qed.

(** C9. For every list in which no two products have names that compare
    equal, sorting by name ascending and reversing gives the order of
    sorting by name descending. *)
Theorem name_asc_reversed_is_name_desc (l : list Product) :
  noNameTies l ->
  rev (sortedProducts l "name-asc") = sortedProducts l "name-desc".
Proof.
  intros Hn. unfold sortedProducts. simpl.
  apply StronglySorted_unique with (R := nameAfter).
  - exact nameAfter_asymmetric.
  - apply (StronglySorted_rev (fun a b => nameAfter b a)).
    apply sort_name_asc_strict. exact Hn.
  - apply sort_name_desc_strict. exact Hn.
  - apply perm_trans with (sort cmpNameAsc l).
    + apply Permutation_sym, Permutation_rev.
    + apply perm_trans with l.
      * apply sort_permutation.
      * apply Permutation_sym, sort_permutation.
Qed.

End NameSort.

Lemma name_asc_reversed_is_name_desc_witness :
  noNameTies (rt := codeUnitRuntime) [scarf; dupatta] /\
  rev (sortedProducts (rt := codeUnitRuntime) [scarf; dupatta] "name-asc")
  = [scarf; dupatta].
Proof.
  assert (Hn : noNameTies (rt := codeUnitRuntime) [scarf; dupatta]).
  { repeat constructor. vm_compute. intros H. discriminate H. }
  split; [exact Hn|].
  exact (name_asc_reversed_is_name_desc
           (rt := codeUnitRuntime) (cc := compareCodeUnits_consistent)
           [scarf; dupatta] Hn).
Defined.

(* ================================================================= *)
(** ** Addition of integers in binary64 *)

Lemma shiftBits_add (a b : nat) (p : positive) :
  shiftBits a (shiftBits b p) = shiftBits (a + b) p.
Proof. unfold shiftBits. symmetry. apply Nat.iter_add. Qed.

Lemma Pos_iter_shiftBits (p n : positive) :
  Pos.iter xO p n = shiftBits (Pos.to_nat n) p.
Proof. unfold shiftBits. apply Pos2Nat.inj_iter. Qed.

Lemma digits_shiftBits (n : nat) (p : positive) :
  Zpos (digits2_pos (shiftBits n p)) = Zpos (digits2_pos p) + Z.of_nat n.
Proof.
  induction n as [|n IH].
  - simpl. lia.
  - change (shiftBits (S n) p) with (xO (shiftBits n p)).
    cbn [digits2_pos]. rewrite Pos2Z.inj_succ, IH. lia.
Qed.

Lemma shiftBits_sum (n : nat) (a b : positive) :
  (shiftBits n a + shiftBits n b)%positive = shiftBits n (a + b).
Proof.
  induction n as [|n IH]; [reflexivity|].
  change (shiftBits (S n) a) with (xO (shiftBits n a)).
  change (shiftBits (S n) b) with (xO (shiftBits n b)).
  change (shiftBits (S n) (a + b)) with (xO (shiftBits n (a + b))).
  rewrite <- IH. reflexivity.
Qed.

Lemma digits2_pos_size (p : positive) : digits2_pos p = Pos.size p.
Proof. induction p; simpl; congruence. Qed.

Lemma digits_small (p : positive) :
  Zpos p < two53 -> Zpos (digits2_pos p) <= 53.
Proof.
  intros Hp. rewrite digits2_pos_size.
  destruct (Z_le_gt_dec (Zpos (Pos.size p)) 53) as [H|H]; [exact H|exfalso].
  pose proof (Pos.size_le p) as Hle.
  assert (H2 : 2 ^ 54 <= 2 ^ Zpos (Pos.size p))
    by (apply Z.pow_le_mono_r; lia).
  assert (H3 : Zpos (2 ^ Pos.size p) = 2 ^ Zpos (Pos.size p))
    by (rewrite Pos2Z.inj_pow; reflexivity).
  assert (H4 : Zpos (2 ^ Pos.size p) <= Zpos p~0) by exact Hle.
  rewrite H3 in H4. unfold two53 in Hp.
  change (2 ^ 54) with 18014398509481984 in H2. lia.
Qed.

(** [iter_pos] of the library is iteration. *)
Lemma iter_pos_nat {A : Type} (f : A -> A) (p : positive) (x : A) :
  iter_pos f p x = Nat.iter (Pos.to_nat p) f x.
Proof.
  revert x. induction p as [p IH|p IH|]; intros x; cbn [iter_pos].
  - rewrite !IH, Pos2Nat.inj_xI.
    rewrite <- Nat.iter_add.
    replace (S (2 * Pos.to_nat p))%nat
      with (Pos.to_nat p + Pos.to_nat p + 1)%nat by lia.
    rewrite (Nat.iter_add (Pos.to_nat p + Pos.to_nat p) 1). reflexivity.
  - rewrite !IH, Pos2Nat.inj_xO. rewrite <- Nat.iter_add.
    f_equal. lia.
  - reflexivity.
Qed.

Lemma shr_zero_bits (j i : nat) (q : positive) :
  Nat.iter j shr_1 (Build_shr_record (Zpos (shiftBits (j + i) q)) false false)
  = Build_shr_record (Zpos (shiftBits i q)) false false.
Proof.
  revert i. induction j as [|j IH]; intros i; [reflexivity|].
  rewrite Nat.iter_succ.
  replace (S j + i)%nat with (j + S i)%nat by lia.
  rewrite (IH (S i)). reflexivity.
Qed.

Lemma fexp_normal (x : Z) : -1021 <= x -> fexp 53 1024 x = x - 53.
Proof. intros H. unfold fexp, emin. lia. Qed.

(** A mantissa of 53 bits at an exponent in range is already rounded. *)
Lemma binary_round_aux_canonical (m : positive) (t : Z) :
  Zpos (digits2_pos m) = 53 -> -1074 <= t <= 971 ->
  binary_round_aux 53 1024 false (Zpos m) t loc_Exact = S754_finite false m t.
Proof.
  intros Hd Ht. unfold binary_round_aux, shr_fexp.
  cbn [Zdigits2 shr_record_of_loc]. rewrite Hd.
  rewrite fexp_normal by lia.
  replace (53 + t - 53 - t) with 0 by lia.
  cbn [shr shr_m loc_of_shr_record round_nearest_even Zdigits2
       shr_record_of_loc].
  rewrite Hd, fexp_normal by lia.
  replace (53 + t - 53 - t) with 0 by lia.
  cbn [shr shr_m].
  assert (E : (t <=? 1024 - 53) = true) by (apply Z.leb_le; lia).
  rewrite E. reflexivity.
Qed.

(** Rounding a number that fits in 53 bits is exact. *)
Lemma binary_round_exact (N : positive) (j : nat) (e : Z) :
  let d := Zpos (digits2_pos N) in
  d <= 53 ->
  -1074 <= d + Z.of_nat j + e - 53 <= 971 ->
  binary_round 53 1024 false (shiftBits j N) e
  = S754_finite false (shiftBits (Z.to_nat (53 - d)) N)
      (d + Z.of_nat j + e - 53).
Proof.
  cbv zeta. set (d := Zpos (digits2_pos N)). intros Hd Ht.
  assert (Hd0 : 0 < d) by (unfold d; lia).
  unfold binary_round.
  rewrite digits_shiftBits. fold d.
  rewrite fexp_normal by lia.
  set (t := d + Z.of_nat j + e - 53) in *.
  replace (d + Z.of_nat j + e - 53) with t by reflexivity.
  unfold shl_align.
  destruct (t - e) as [|r|r] eqn:Er.
  - (* no shift needed: the mantissa has 53 bits *)
    assert (Hj : Z.of_nat j = 53 - d) by (unfold t in Er; lia).
    assert (Ee : e = t) by lia.
    rewrite Ee.
    replace (Z.to_nat (53 - d)) with j by lia.
    apply binary_round_aux_canonical; [|lia].
    rewrite digits_shiftBits. fold d. lia.
  - (* shift right over zero bits *)
    unfold binary_round_aux, shr_fexp.
    cbn [Zdigits2 shr_record_of_loc].
    rewrite digits_shiftBits. fold d.
    rewrite fexp_normal by lia.
    replace (d + Z.of_nat j + e - 53 - e) with (Zpos r)
      by (unfold t in Er; lia).
    cbn [shr]. rewrite iter_pos_nat.
    assert (Hsplit : j = (Pos.to_nat r + Z.to_nat (53 - d))%nat)
      by (unfold t in Er; lia).
    assert (Hshr :
      Nat.iter (Pos.to_nat r) shr_1
        (Build_shr_record (Zpos (shiftBits j N)) false false)
      = Build_shr_record (Zpos (shiftBits (Z.to_nat (53 - d)) N)) false false)
      by (rewrite Hsplit at 1; apply shr_zero_bits).
    rewrite Hshr.
    cbn [shr_m loc_of_shr_record round_nearest_even Zdigits2
         shr_record_of_loc].
    rewrite digits_shiftBits. fold d.
    replace (e + Zpos r) with t by lia.
    rewrite fexp_normal by lia.
    replace (d + Z.of_nat (Z.to_nat (53 - d)) + t - 53 - t) with 0 by lia.
    cbn [shr shr_m].
    assert (E : (t <=? 1024 - 53) = true) by (apply Z.leb_le; lia).
    rewrite E. reflexivity.
  - (* shift left *)
    rewrite Pos_iter_shiftBits, shiftBits_add.
    replace (Pos.to_nat r + j)%nat with (Z.to_nat (53 - d))
      by (unfold t in Er; lia).
    apply binary_round_aux_canonical; [|lia].
    rewrite digits_shiftBits. fold d. lia.
Qed.

Lemma jsNumber_small (p : positive) :
  Zpos p < two53 ->
  jsNumber (Zpos p)
  = S754_finite false
      (shiftBits (Z.to_nat (53 - Zpos (digits2_pos p))) p)
      (Zpos (digits2_pos p) - 53).
Proof.
  intros Hp. pose proof (digits_small p Hp) as Hd.
  unfold jsNumber, binary_normalize.
  change p with (shiftBits 0 p) at 1.
  rewrite binary_round_exact; [f_equal; lia|exact Hd|lia].
Qed.

Lemma jsNumber_two53 : jsNumber two53 = S754_finite false (shiftBits 52 1) 1.
Proof. reflexivity. Qed.

Lemma two53_shiftBits : two53 = Zpos (shiftBits 53 1).
Proof. reflexivity. Qed.

(** Addition of two non-negative integers is exact up to 2^53. *)
Lemma jsAdd_exact (a b : Z) :
  0 <= a -> 0 <= b -> a + b <= two53 ->
  jsAdd (jsNumber a) (jsNumber b) = jsNumber (a + b).
Proof.
  intros Ha Hb Hab.
  destruct a as [|a|a]; [|clear Ha|lia].
  { rewrite Z.add_0_l. destruct b as [|b|b]; [reflexivity| |lia].
    destruct (Z.eq_dec (Zpos b) two53) as [E|E].
    - rewrite E. reflexivity.
    - rewrite jsNumber_small by lia. reflexivity. }
  destruct b as [|b|b]; [|clear Hb|lia].
  { rewrite Z.add_0_r.
    destruct (Z.eq_dec (Zpos a) two53) as [E|E].
    - rewrite E. reflexivity.
    - rewrite jsNumber_small by lia. reflexivity. }
  assert (Ha : Zpos a < two53) by lia.
  assert (Hb : Zpos b < two53) by lia.
  pose proof (digits_small a Ha) as Hda.
  pose proof (digits_small b Hb) as Hdb.
  rewrite (jsNumber_small a Ha), (jsNumber_small b Hb).
  set (da := Zpos (digits2_pos a)) in *.
  set (db := Zpos (digits2_pos b)) in *.
  assert (Hda0 : 0 < da) by (unfold da; lia).
  assert (Hdb0 : 0 < db) by (unfold db; lia).
  unfold jsAdd, SFadd. cbv zeta. cbn [cond_Zopp].
  set (k := Z.to_nat (53 - Z.min da db)).
  assert (Ea : fst (shl_align (shiftBits (Z.to_nat (53 - da)) a) (da - 53)
                      (Z.min (da - 53) (db - 53)))
               = shiftBits k a).
  { unfold shl_align.
    destruct (Z.min (da - 53) (db - 53) - (da - 53)) as [|r|r] eqn:Er.
    - cbn [fst]. f_equal. unfold k. lia.
    - lia.
    - cbn [fst]. rewrite Pos_iter_shiftBits, shiftBits_add.
      f_equal. unfold k. lia. }
  assert (Eb : fst (shl_align (shiftBits (Z.to_nat (53 - db)) b) (db - 53)
                      (Z.min (da - 53) (db - 53)))
               = shiftBits k b).
  { unfold shl_align.
    destruct (Z.min (da - 53) (db - 53) - (db - 53)) as [|r|r] eqn:Er.
    - cbn [fst]. f_equal. unfold k. lia.
    - lia.
    - cbn [fst]. rewrite Pos_iter_shiftBits, shiftBits_add.
      f_equal. unfold k. lia. }
  rewrite Ea, Eb.
  change (Zpos (shiftBits k a) + Zpos (shiftBits k b))
    with (Zpos (shiftBits k a + shiftBits k b)).
  rewrite shiftBits_sum.
  change (Zpos a + Zpos b) with (Zpos (a + b)) in *.
  unfold binary_normalize.
  assert (Ez : Z.min (da - 53) (db - 53) = - Z.of_nat k) by (unfold k; lia).
  rewrite Ez.
  destruct (Z.eq_dec (Zpos (a + b)) two53) as [E|E].
  - assert (E' : (a + b)%positive = shiftBits 53 1)
      by (apply Pos2Z.inj; exact E).
    rewrite E', shiftBits_add.
    change (jsNumber (Zpos (shiftBits 53 1)))
      with (S754_finite false (shiftBits 52 1) 1).
    rewrite binary_round_exact;
      [f_equal; cbn [digits2_pos]; lia
      |cbn [digits2_pos]; lia|cbn [digits2_pos]; lia].
  - assert (Hs : Zpos (a + b) < two53) by lia.
    pose proof (digits_small (a + b) Hs) as Hds.
    rewrite (jsNumber_small (a + b) Hs).
    rewrite binary_round_exact; [f_equal; lia|exact Hds|lia].
Qed.

Lemma Zpos_shiftBits (k : nat) (p : positive) :
  Zpos (shiftBits k p) = Zpos p * 2 ^ Z.of_nat k.
Proof.
  induction k as [|k IH]; [simpl; lia|].
  change (shiftBits (S k) p) with (xO (shiftBits k p)).
  rewrite Pos2Z.inj_xO, IH, Nat2Z.inj_succ, Z.pow_succ_r by lia. lia.
Qed.

(** The number of an integer up to 2^53 is that integer. *)
Lemma integerValue_jsNumber (n : Z) :
  0 <= n <= two53 -> integerValue (jsNumber n) = Some n.
Proof.
  intros [H0 H1]. destruct n as [|p|p]; [reflexivity| |lia].
  destruct (Z.eq_dec (Zpos p) two53) as [E|E]; [rewrite E; reflexivity|].
  assert (Hp : Zpos p < two53) by lia.
  pose proof (digits_small p Hp) as Hd.
  rewrite (jsNumber_small p Hp). unfold integerValue.
  set (d := Zpos (digits2_pos p)) in *.
  assert (Hd0 : 0 < d) by (unfold d; lia).
  rewrite Zpos_shiftBits.
  destruct (0 <=? d - 53) eqn:E0.
  - apply Z.leb_le in E0. assert (Ed : d = 53) by lia.
    rewrite Ed. simpl. f_equal; try lia.
  - apply Z.leb_gt in E0.
    replace (- (d - 53)) with (Z.of_nat (Z.to_nat (53 - d))) by lia.
    assert (Hpow : 0 < 2 ^ Z.of_nat (Z.to_nat (53 - d)))
      by (apply Z.pow_pos_nonneg; lia).
    rewrite Z.mod_mul by lia. rewrite Z.eqb_refl.
    rewrite Z.div_mul by lia. f_equal; try lia.
Qed.

Lemma jsNumber_inj (a b : Z) :
  0 <= a <= two53 -> 0 <= b <= two53 -> jsNumber a = jsNumber b -> a = b.
Proof.
  intros Ha Hb H.
  pose proof (integerValue_jsNumber a Ha) as Ea.
  pose proof (integerValue_jsNumber b Hb) as Eb.
  rewrite H in Ea. congruence.
Qed.

Lemma sumOf_nonneg (cart : list CartItem) (counts : list Z) :
  quantitiesAre cart counts -> 0 <= sumOf counts.
Proof.
  intros H. induction H as [|item n cart counts [Hn _] _ IH]; simpl; lia.
Qed.

(** The running total of [reduce] is exact as long as it stays within
    2^53. *)
Lemma totalQuantity_from_exact
  (cart : list CartItem) (counts : list Z) (acc : Z) :
  quantitiesAre cart counts -> 0 <= acc -> acc + sumOf counts <= two53 ->
  fold_left (fun a item => jsAdd a (quantity item)) cart (jsNumber acc)
  = jsNumber (acc + sumOf counts).
Proof.
  intros H. revert acc.
  induction H as [|item n cart counts [Hn Hq] Hrest IH]; intros acc Hacc Hsum.
  - simpl. rewrite Z.add_0_r. reflexivity.
  - pose proof (sumOf_nonneg _ _ Hrest) as Hs.
    cbn [fold_left sumOf] in *. rewrite Hq.
    rewrite jsAdd_exact by lia.
    rewrite IH by lia. f_equal. lia.
Qed.

Lemma totalQuantity_exact (cart : list CartItem) (counts : list Z) :
  quantitiesAre cart counts -> sumOf counts <= two53 ->
  totalQuantity cart = jsNumber (sumOf counts).
Proof.
  intros H Hs. unfold totalQuantity.
  rewrite (totalQuantity_from_exact cart counts 0 H); [reflexivity|lia|lia].
Qed.

(* ================================================================= *)
(** ** The cart merge *)

Lemma find_productId_none (id : string) (cart : list CartItem) :
  find (fun item => (productId item =? id)%string) cart = None <->
  ~ In id (map productId cart).
Proof.
  induction cart as [|a l IH]; simpl.
  - tauto.
  - destruct (productId a =? id)%string eqn:E.
    + apply String.eqb_eq in E. split; [discriminate|]. intros H.
      exfalso. apply H. left. exact E.
    + apply String.eqb_neq in E. rewrite IH. tauto.
Qed.

Lemma increment_keeps_ids (id : string) (cart : list CartItem) :
  map productId
    (map (fun item =>
            if (productId item =? id)%string
            then withQuantity item (jsAdd (quantity item) (jsNumber 1))
            else item) cart)
  = map productId cart.
Proof.
  induction cart as [|a l IH]; simpl; [reflexivity|].
  rewrite IH. destruct (productId a =? id)%string; reflexivity.
Qed.

Lemma increment_absent (id : string) (cart : list CartItem) :
  ~ In id (map productId cart) ->
  map (fun item =>
         if (productId item =? id)%string
         then withQuantity item (jsAdd (quantity item) (jsNumber 1))
         else item) cart
  = cart.
Proof.
  induction cart as [|a l IH]; simpl; intros H; [reflexivity|].
  destruct (productId a =? id)%string eqn:E.
  - apply String.eqb_eq in E. exfalso. apply H. left. exact E.
  - rewrite IH; [reflexivity|]. intros Hin. apply H. right. exact Hin.
Qed.

(** In a cart with one item per product, the increment touches the one
    item of the product and nothing else. *)
Lemma increment_present (id : string) (cart : list CartItem) :
  uniqueProducts cart -> In id (map productId cart) ->
  exists pre item post,
    cart = (pre ++ item :: post)%list /\ productId item = id /\
    map (fun item =>
           if (productId item =? id)%string
           then withQuantity item (jsAdd (quantity item) (jsNumber 1))
           else item) cart
    = (pre ++
       {| productId := productId item;
          item_name := item_name item;
          item_price := item_price item;
          quantity := jsAdd (quantity item) (jsNumber 1) |} :: post)%list.
Proof.
  unfold uniqueProducts.
  induction cart as [|a l IH]; simpl; intros Hnd Hin; [contradiction|].
  inversion Hnd as [|? ? Hnotin Hnd']; subst.
  destruct (productId a =? id)%string eqn:E.
  - apply String.eqb_eq in E. exists [], a, l.
    split; [reflexivity|]. split; [exact E|].
    simpl. rewrite increment_absent; [reflexivity|].
    rewrite <- E. exact Hnotin.
  - apply String.eqb_neq in E.
    destruct Hin as [Hin|Hin]; [contradiction|].
    destruct (IH Hnd' Hin) as [pre [item [post [Hc [Hid Hm]]]]].
    exists (a :: pre), item, post.
    split; [simpl; rewrite Hc; reflexivity|].
    split; [exact Hid|].
    simpl. rewrite Hm. reflexivity.
Qed.

Lemma updatedCartItems_twice_from_empty (product : Product) :
  updatedCartItems (updatedCartItems [] product) product = [itemOf product 2].
Proof.
  unfold updatedCartItems. simpl. rewrite String.eqb_refl. reflexivity.
Qed.

(** C1, as amended. In a cart with at most one item per product
    identifier, adding a product keeps that property. A product already in
    the cart has the quantity [q] of its one item replaced by the
    binary64 sum [q + 1] and no entry is added; when [q] is an integer
    [n] with [0 <= n < 2^53] the new quantity is the integer [n + 1]. A
    product not in the cart is appended as one item of quantity 1. Adding
    a product twice to the empty cart leaves one item of quantity 2. *)
Theorem updatedCartItems_one_item_per_product
  (cart : list CartItem) (product : Product) :
  uniqueProducts cart ->
  uniqueProducts (updatedCartItems cart product) /\
  (In (_id product) (map productId cart) ->
   List.length (updatedCartItems cart product) = List.length cart /\
   exists pre item post,
     cart = (pre ++ item :: post)%list /\ productId item = _id product /\
     updatedCartItems cart product
     = (pre ++
        {| productId := productId item;
           item_name := item_name item;
           item_price := item_price item;
           quantity := jsAdd (quantity item) (jsNumber 1) |} :: post)%list /\
     (forall n : Z,
        0 <= n < two53 -> quantity item = jsNumber n ->
        jsAdd (quantity item) (jsNumber 1) = jsNumber (n + 1) /\
        integerValue (jsNumber (n + 1)) = Some (n + 1))) /\
  (~ In (_id product) (map productId cart) ->
   updatedCartItems cart product = (cart ++ [itemOf product 1])%list) /\
  updatedCartItems (updatedCartItems [] product) product
  = [itemOf product 2] /\
  integerValue (quantity (itemOf product 1)) = Some 1 /\
  integerValue (quantity (itemOf product 2)) = Some 2.
Proof.
  intros Hu.
  assert (Hcases :
    uniqueProducts (updatedCartItems cart product) /\
    (In (_id product) (map productId cart) ->
     List.length (updatedCartItems cart product) = List.length cart /\
     exists pre item post,
       cart = (pre ++ item :: post)%list /\ productId item = _id product /\
       updatedCartItems cart product
       = (pre ++
          {| productId := productId item;
             item_name := item_name item;
             item_price := item_price item;
             quantity := jsAdd (quantity item) (jsNumber 1) |} :: post)%list)
    /\
    (~ In (_id product) (map productId cart) ->
     updatedCartItems cart product = (cart ++ [itemOf product 1])%list)).
  { unfold updatedCartItems.
    destruct (find (fun item => (productId item =? _id product)%string) cart)
      as [existing|] eqn:Hfind.
    - assert (Hin : In (_id product) (map productId cart)).
      { destruct (in_dec string_dec (_id product) (map productId cart))
          as [Hin|Hnot]; [exact Hin|].
        apply find_productId_none in Hnot. congruence. }
      split; [|split].
      + unfold uniqueProducts. rewrite increment_keeps_ids. exact Hu.
      + intros _. split; [apply length_map|].
        apply increment_present; assumption.
      + intros Hnot. contradiction.
    - assert (Hnot : ~ In (_id product) (map productId cart))
        by (apply find_productId_none; exact Hfind).
      split; [|split].
      + unfold uniqueProducts. rewrite map_app. simpl.
        apply Permutation_NoDup with (_id product :: map productId cart).
        * apply Permutation_cons_append.
        * constructor; assumption.
      + intros Hin. contradiction.
      + intros _. reflexivity. }
  destruct Hcases as [H1 [H2 H3]].
  split; [exact H1|]. split; [|split; [exact H3|]].
  - intros Hin. destruct (H2 Hin) as [Hlen [pre [item [post [E [Hid Hm]]]]]].
    split; [exact Hlen|]. exists pre, item, post.
    split; [exact E|]. split; [exact Hid|]. split; [exact Hm|].
    intros n Hn Hq. rewrite Hq. split.
    + apply jsAdd_exact; lia.
    + apply integerValue_jsNumber. lia.
  - split; [apply updatedCartItems_twice_from_empty|].
    split; reflexivity.
Qed.

Lemma updatedCartItems_one_item_per_product_witness :
  let cart := [itemOf dupatta 1] in
  uniqueProducts cart /\
  In (_id dupatta) (map productId cart) /\
  uniqueProducts (updatedCartItems cart dupatta) /\
  updatedCartItems cart dupatta = [itemOf dupatta 2] /\
  updatedCartItems (updatedCartItems [] dupatta) dupatta
  = [itemOf dupatta 2].
Proof.
  cbv zeta.
  assert (Hu : uniqueProducts [itemOf dupatta 1]).
  { unfold uniqueProducts. simpl. constructor; [|constructor].
    intros H. exact H. }
  assert (Hin : In (_id dupatta) (map productId [itemOf dupatta 1]))
    by (left; reflexivity).
  split; [exact Hu|]. split; [exact Hin|].
  pose proof
    (updatedCartItems_one_item_per_product [itemOf dupatta 1] dupatta Hu)
    as [H1 [H2 [_ [H4 _]]]].
  split; [exact H1|]. split; [|exact H4].
  destruct (H2 Hin) as [_ [pre [item [post [E [_ [Hm Hexact]]]]]]].
  destruct pre as [|x pre].
  - injection E as Eitem Epost. subst item post.
    rewrite Hm.
    assert (Hrange : 0 <= 1 < two53) by (unfold two53; lia).
    destruct (Hexact 1 Hrange eq_refl) as [Hq _].
    cbn [app]. rewrite Hq. reflexivity.
  - destruct pre; discriminate E.
Defined.

(** C1 as stated fails: a cart whose one item has the quantity 2^53 is the
    same cart after the product is added again, the sum 2^53 + 1 being
    rounded to 2^53. *)
Lemma updatedCartItems_stuck_at_two53 :
  let cart := [itemOf dupatta two53] in
  uniqueProducts cart /\
  In (_id dupatta) (map productId cart) /\
  integerValue (quantity (itemOf dupatta two53)) = Some two53 /\
  updatedCartItems cart dupatta = cart.
Proof.
  cbv zeta. split; [|split; [|split]].
  - unfold uniqueProducts. simpl. constructor; [|constructor].
    intros H. exact H.
  - left. reflexivity.
  - reflexivity.
  - vm_compute. reflexivity.
Qed.

(* ================================================================= *)
(** ** The handler's effects *)




(** C2. With no identity, a click on "Add to Cart" leaves the cart items
    and the count as they were, sends no request and navigates to the
    sign-in page: the run performs the one effect [router.push("/signin")]
    and never waits for a response. *)
Theorem handleAddToCart_signed_out
  (net : Request -> FetchOutcome) (w : World) (product : Product) :
  let w' := fst (run net (clickAddToCart w None product) w) in
  cartItems w' = cartItems w /\
  cartCount w' = cartCount w /\
  trace w' = (trace w ++ [EvRouterPush "/signin"])%list /\
  filter isFetch (trace w') = filter isFetch (trace w) /\
  runSync (clickAddToCart w None product) w
  = (logEvent w (EvRouterPush "/signin"), Done tt).
Proof.
  simpl. repeat split.
  rewrite filter_app. simpl. apply app_nil_r.
Qed.

(** The scenario of the specification: empty cart, product p1 at
    "Rs 500", nobody signed in. *)
Example scenario_add_while_signed_out :
  run (fun _ => Resolved {| ok := true |})
      (clickAddToCart emptyWorld None
         (scenarioProduct "p1" "Phulkari Dupatta" "Rs 500" None))
      emptyWorld
  = ({| cartItems := []; cartCount := jsNumber 0;
        trace := [EvRouterPush "/signin"] |}, inl tt).
Proof. reflexivity. Qed.




(** The scenario of the specification: signed in, cart [{p1, 1}], add p1
    again, the server accepting the write. *)
Example scenario_add_again_signed_in :
  let cart1 := [itemOf dupatta 1] in
  let cart2 := [itemOf dupatta 2] in
  run (fun _ => Resolved {| ok := true |})
      (handleAddToCart cart1 (Some signedIn) dupatta)
      {| cartItems := cart1; cartCount := jsNumber 1; trace := [] |}
  = ({| cartItems := cart2; cartCount := jsNumber 2;
        trace := [EvSetCartItems cart2; EvSetCartCount (jsNumber 2);
                  EvFetch (persistRequest signedIn cart2);
                  EvToastSuccess "Item added to Cart" toastOptions] |},
     inl tt).
Proof. vm_compute. reflexivity. Qed.

(** C4. When the persist request of a signed-in add-to-cart fails, the
    handler logs the error and shows the error toast, which closes by
    itself after 3000 ms, and touches the state no more: items and count
    stay those of the optimistic update, as they were when the request
    was sent; the count is the sum of the quantities when these are
    non-negative integers of sum at most 2^53. *)
Theorem handleAddToCart_persist_failure
  (net : Request -> FetchOutcome) (w : World) (u : User) (product : Product) :
  let updated := updatedCartItems (cartItems w) product in
  let req := persistRequest u updated in
  persistFails (net req) ->
  let w' := fst (run net (clickAddToCart w (Some u) product) w) in
  cartItems w' = updated /\
  cartCount w' = totalQuantity updated /\
  (exists error : string,
     trace w'
     = (trace w ++ [EvSetCartItems updated;
                    EvSetCartCount (totalQuantity updated);
                    EvFetch req;
                    EvConsoleError ["Error updating the cart:"; error];
                    EvToastError "Error updating your cart. Please try again."
                      toastOptions])%list) /\
  autoClose toastOptions = 3000 /\
  (let optimistic := fst (runSync (clickAddToCart w (Some u) product) w) in
   cartItems w' = cartItems optimistic /\
   cartCount w' = cartCount optimistic) /\
  (forall counts : list Z,
     quantitiesAre updated counts -> sumOf counts <= two53 ->
     cartCount w' = jsNumber (sumOf counts)).
Proof.
  cbv zeta. intros Hfail.
  unfold clickAddToCart, handleAddToCart. cbv zeta.
  set (updated := updatedCartItems (cartItems w) product) in *.
  unfold persistRequest in Hfail. simpl.
  destruct (net _) as [[[|]]|reason]; simpl in Hfail; [discriminate Hfail| |];
    simpl; unfold logEvent, persistRequest; simpl;
    (split; [reflexivity|]); (split; [reflexivity|]);
    (split; [eexists; repeat rewrite <- app_assoc; simpl; reflexivity|]);
    (split; [reflexivity|]); (split; [split; reflexivity|]);
    intros counts Hq Hsum; apply totalQuantity_exact; assumption.
Qed.

Lemma handleAddToCart_persist_failure_witness :
  let net := fun _ : Request => Resolved {| ok := false |} in
  let w := {| cartItems := [itemOf dupatta 1]; cartCount := jsNumber 1;
              trace := [] |} in
  persistFails
    (net (persistRequest signedIn (updatedCartItems (cartItems w) dupatta))) /\
  cartItems (fst (run net (clickAddToCart w (Some signedIn) dupatta) w))
  = [itemOf dupatta 2] /\
  cartCount (fst (run net (clickAddToCart w (Some signedIn) dupatta) w))
  = jsNumber 2.
Proof.
  cbv zeta.
  assert (Hfail :
    persistFails
      ((fun _ : Request => Resolved {| ok := false |})
         (persistRequest signedIn
            (updatedCartItems [itemOf dupatta 1] dupatta))))
    by reflexivity.
  pose proof
    (handleAddToCart_persist_failure
       (fun _ : Request => Resolved {| ok := false |})
       {| cartItems := [itemOf dupatta 1]; cartCount := jsNumber 1;
          trace := [] |}
       signedIn dupatta Hfail) as [Hitems [Hcount _]].
  split; [exact Hfail|]. split; [exact Hitems|exact Hcount].
Defined.

(* ================================================================= *)
(** ** The visible window *)

Section WindowFacts.

Context {rt : StringRuntime}.

Lemma setVisibleCount_same (st : ViewState) :
  setVisibleCount st (visibleCount st) = st.
Proof. destruct st. reflexivity. Qed.

Lemma viewLength_setVisibleCount (st : ViewState) (n : Z) :
  viewLength (setVisibleCount st n) = viewLength st.
Proof. reflexivity. Qed.

(** The callback never moves the window past the list, whatever state the
    functional update finds, and never shrinks it below what it found
    unless that was already past the list. *)
Lemma observerCallback_bound (visible len : Z) (b : bool) (prev : Z) :
  observerCallback visible len b prev <= Z.max prev len.
Proof.
  unfold observerCallback.
  destruct (b && (visible <? len)); lia.
Qed.

Lemma observerCallback_exhausted (visible len : Z) (b : bool) (prev : Z) :
  len <= visible -> observerCallback visible len b prev = prev.
Proof.
  intros H. unfold observerCallback.
  assert (E : (visible <? len) = false) by (apply Z.ltb_ge; exact H).
  rewrite E, andb_false_r. reflexivity.
Qed.

(** After a step the window is the initial one or fits the list it is a
    window of. *)
Lemma viewStep_window (st : ViewState) (ev : ViewEvent) :
  10 <= visibleCount st ->
  visibleCount st = 10 \/ visibleCount st <= viewLength st ->
  let st' := viewStep st ev in
  10 <= visibleCount st' /\
  (visibleCount st' = 10 \/ visibleCount st' <= viewLength st').
Proof.
  intros Hlow Hinv. cbv zeta. unfold viewStep.
  destruct ev as [s|s|s|data|b]; simpl.
  - destruct (s =? searchTerm st)%string eqn:E; simpl.
    + apply String.eqb_eq in E. subst s.
      split; [exact Hlow|]. destruct st; exact Hinv.
    + split; [lia|left; reflexivity].
  - destruct (s =? sortOption st)%string eqn:E; simpl.
    + apply String.eqb_eq in E. subst s.
      split; [exact Hlow|]. destruct st; exact Hinv.
    + split; [lia|left; reflexivity].
  - destruct (s =? filterJustIn st)%string eqn:E; simpl.
    + apply String.eqb_eq in E. subst s.
      split; [exact Hlow|]. destruct st; exact Hinv.
    + split; [lia|left; reflexivity].
  - split; [lia|left; reflexivity].
  - rewrite viewLength_setVisibleCount.
    unfold observerCallback.
    destruct (b && (visibleCount st <? viewLength st)) eqn:E.
    + apply andb_true_iff in E. destruct E as [_ E].
      apply Z.ltb_lt in E. split; [lia|right; lia].
    + split; [exact Hlow|exact Hinv].
Qed.

Lemma viewRun_window (evs : list ViewEvent) :
  10 <= visibleCount (viewRun evs) /\
  (visibleCount (viewRun evs) = 10 \/
   visibleCount (viewRun evs) <= viewLength (viewRun evs)).
Proof.
  unfold viewRun.
  assert (H0 : 10 <= visibleCount initialView /\
               (visibleCount initialView = 10 \/
                visibleCount initialView <= viewLength initialView))
    by (simpl; lia).
  revert H0. generalize initialView as st.
  induction evs as [|ev evs IH]; intros st H; simpl.
  - exact H.
  - apply IH. destruct H as [H1 H2]. apply viewStep_window; assumption.
Qed.

Lemma slice0_length {A : Type} (l : list A) (n : Z) :
  Z.of_nat (List.length (slice0 l n)) <= Z.of_nat (List.length l).
Proof.
  unfold slice0. rewrite length_firstn. lia.
Qed.

Lemma viewStep_low (st : ViewState) (ev : ViewEvent) :
  10 <= visibleCount st -> 10 <= visibleCount (viewStep st ev).
Proof.
  intros Hlow. unfold viewStep, resetEffect.
  destruct (changesInputs st ev) eqn:E; [simpl; lia|].
  destruct ev as [s|s|s|data|b]; simpl; try exact Hlow.
  unfold observerCallback.
  destruct (b && (visibleCount st <? viewLength st)) eqn:Hb; [|exact Hlow].
  apply andb_true_iff in Hb. destruct Hb as [_ Hb].
  apply Z.ltb_lt in Hb. lia.
Qed.

(** The render between a setter and the reset effect shows the window as
    it was. *)
Lemma applySetter_keeps_window (st : ViewState) (ev : ViewEvent) :
  changesInputs st ev = true ->
  visibleCount (applySetter st ev) = visibleCount st.
Proof.
  destruct ev as [s|s|s|data|b]; simpl; intros H;
    [reflexivity|reflexivity|reflexivity|reflexivity|discriminate H].
Qed.

Lemma rendersOf_low (st : ViewState) (ev : ViewEvent) (r : ViewState) :
  10 <= visibleCount st -> In r (rendersOf st ev) -> 10 <= visibleCount r.
Proof.
  intros Hlow. unfold rendersOf.
  destruct (changesInputs st ev) eqn:E; simpl.
  - intros [H|[H|H]]; [| |contradiction]; subst r.
    + rewrite applySetter_keeps_window by exact E. exact Hlow.
    + apply viewStep_low. exact Hlow.
  - intros [H|H]; [|contradiction]. subst r.
    apply viewStep_low. exact Hlow.
Qed.

Lemma rendersFrom_low (evs : list ViewEvent) (st r : ViewState) :
  10 <= visibleCount st -> In r (rendersFrom st evs) -> 10 <= visibleCount r.
Proof.
  revert st. induction evs as [|ev evs IH]; intros st Hlow; simpl.
  - contradiction.
  - intros Hin. apply in_app_or in Hin. destruct Hin as [Hin|Hin].
    + exact (rendersOf_low st ev r Hlow Hin).
    + apply (IH (viewStep st ev)); [apply viewStep_low; exact Hlow|exact Hin].
Qed.

Lemma viewStep_rendered (st : ViewState) (ev : ViewEvent) :
  In (viewStep st ev) (rendersOf st ev).
Proof.
  unfold rendersOf. destruct (changesInputs st ev); simpl; tauto.
Qed.

(** The state once the effects have run is the last one rendered. *)
Lemma settled_rendered (evs : list ViewEvent) (st : ViewState) :
  In (fold_left viewStep evs st) (st :: rendersFrom st evs).
Proof.
  revert st. induction evs as [|ev evs IH]; intros st; simpl.
  - left. reflexivity.
  - right. apply in_or_app.
    destruct (IH (viewStep st ev)) as [H|H].
    + left. rewrite <- H. apply viewStep_rendered.
    + right. exact H.
Qed.

(** C5, as amended. Once the effects of an event have run, the window size
    is at least 10 and at most the larger of 10 and the length of the
    filtered/sorted list. In every state the page renders, the render
    between a setter and the reset effect included, the window size is at
    least 10 and the products shown are never more than that length. A
    sentinel event never moves the window past the list, and once the
    window size has reached the length a sentinel event changes
    nothing. *)
Theorem visibleCount_window (evs : list ViewEvent) (isIntersecting : bool) :
  let st := viewRun evs in
  10 <= visibleCount st <= Z.max 10 (viewLength st) /\
  In st (renderedStates evs) /\
  (forall r : ViewState,
     In r (renderedStates evs) ->
     10 <= visibleCount r /\
     Z.of_nat (List.length (visibleProducts (viewSorted r) (visibleCount r)))
     <= viewLength r) /\
  visibleCount (viewStep st (SentinelEntry isIntersecting))
  <= Z.max (visibleCount st) (viewLength st) /\
  (viewLength st <= visibleCount st ->
   viewStep st (SentinelEntry isIntersecting) = st).
Proof.
  cbv zeta. destruct (viewRun_window evs) as [Hlow Hinv].
  split; [lia|]. split; [apply settled_rendered|].
  split; [|split].
  - intros r Hin. split; [|apply slice0_length].
    destruct Hin as [Hin|Hin].
    + subst r. simpl. lia.
    + apply (rendersFrom_low evs initialView r); [simpl; lia|exact Hin].
  - unfold viewStep. simpl. apply observerCallback_bound.
  - intros Hfull. unfold viewStep. simpl.
    rewrite observerCallback_exhausted by exact Hfull.
    apply setVisibleCount_same.
Qed.

(** C6. Whatever the window size was, a change of the search term, of the
    sort mode or of the recent filter, and every new catalog, puts the
    window size back to its initial value 10. *)
Theorem visibleCount_reset_on_change (st : ViewState) :
  (forall s, s <> searchTerm st ->
     visibleCount (viewStep st (SetSearchTerm s)) = visibleCount initialView) /\
  (forall s, s <> sortOption st ->
     visibleCount (viewStep st (SetSortOption s)) = visibleCount initialView) /\
  (forall s, s <> filterJustIn st ->
     visibleCount (viewStep st (SetFilterJustIn s))
     = visibleCount initialView) /\
  (forall data,
     visibleCount (viewStep st (SetProducts data))
     = visibleCount initialView) /\
  visibleCount initialView = 10.
Proof.
  unfold viewStep. simpl.
  split; [|split; [|split; [|split]]].
  - intros s Hs. apply String.eqb_neq in Hs. rewrite Hs. reflexivity.
  - intros s Hs. apply String.eqb_neq in Hs. rewrite Hs. reflexivity.
  - intros s Hs. apply String.eqb_neq in Hs. rewrite Hs. reflexivity.
  - intros data. reflexivity.
  - reflexivity.
Qed.

End WindowFacts.

(** C5 as stated fails: with a catalog of two products the window size is
    10, above the length 2 of the list, and so it is before any product
    has loaded. And with 35 products and the window grown to 30, a search
    term that matches nothing causes a render with the window size 30
    over a list of length 0, before the reset effect puts it back to
    10. *)
Lemma visibleCount_exceeds_short_list :
  let st := viewRun (rt := codeUnitRuntime) [SetProducts [dupatta; scarf]] in
  viewLength (rt := codeUnitRuntime) st = 2 /\
  visibleCount st = 10 /\
  ~ (visibleCount st <= viewLength (rt := codeUnitRuntime) st) /\
  ~ (visibleCount (viewRun (rt := codeUnitRuntime) [])
     <= viewLength (rt := codeUnitRuntime)
          (viewRun (rt := codeUnitRuntime) [])) /\
  let catalog := repeat dupatta 35 in
  let between :=
    {| products := catalog; searchTerm := "zzz";
       sortOption := "name-asc"; filterJustIn := EmptyString;
       visibleCount := 30 |} in
  In between
    (renderedStates (rt := codeUnitRuntime)
       [SetProducts catalog; SentinelEntry true; SentinelEntry true;
        SetSearchTerm "zzz"]) /\
  viewLength (rt := codeUnitRuntime) between = 0 /\
  ~ (visibleCount between <= viewLength (rt := codeUnitRuntime) between).
Proof.
  cbv zeta. split; [reflexivity|]. split; [reflexivity|].
  split; [vm_compute; intros H; apply H; reflexivity|].
  split; [vm_compute; intros H; apply H; reflexivity|].
  split; [|split].
  - vm_compute. do 5 right. left. reflexivity.
  - vm_compute. reflexivity.
  - vm_compute. intros H. apply H. reflexivity.
Qed.

Lemma visibleCount_window_witness :
  let evs := [SetProducts [dupatta; scarf]; SentinelEntry true] in
  let st := viewRun (rt := codeUnitRuntime) evs in
  viewLength (rt := codeUnitRuntime) st <= visibleCount st /\
  viewStep (rt := codeUnitRuntime) st (SentinelEntry true) = st /\
  In st (renderedStates (rt := codeUnitRuntime) evs).
Proof.
  cbv zeta.
  assert (Hfull :
    viewLength (rt := codeUnitRuntime)
      (viewRun (rt := codeUnitRuntime)
         [SetProducts [dupatta; scarf]; SentinelEntry true])
    <= visibleCount
         (viewRun (rt := codeUnitRuntime)
            [SetProducts [dupatta; scarf]; SentinelEntry true]))
    by (apply Z.leb_le; reflexivity).
  pose proof
    (visibleCount_window (rt := codeUnitRuntime)
       [SetProducts [dupatta; scarf]; SentinelEntry true] true)
    as [_ [Hin [_ [_ Hstop]]]].
  split; [exact Hfull|]. split; [exact (Hstop Hfull)|exact Hin].
Defined.

Lemma visibleCount_reset_on_change_witness :
  let st := setVisibleCount
              (viewRun (rt := codeUnitRuntime) [SetProducts [dupatta; scarf]])
              30 in
  "scarf" <> searchTerm st /\
  visibleCount (viewStep (rt := codeUnitRuntime) st (SetSearchTerm "scarf"))
  = 10.
Proof.
  cbv zeta.
  assert (Hneq : "scarf" <> "") by (intros H; discriminate H).
  split; [exact Hneq|].
  exact (proj1
    (visibleCount_reset_on_change (rt := codeUnitRuntime)
       (setVisibleCount
          (viewRun (rt := codeUnitRuntime) [SetProducts [dupatta; scarf]]) 30))
    "scarf" Hneq).
Defined.

(* ================================================================= *)
(** ** The scenarios of the specification, run *)

(** Catalog [p1; p2], empty search term, filter "justIn", name ascending:
    only p1 is listed. *)
Example pipeline_scenario_just_in :
  sortedProducts (rt := codeUnitRuntime)
    (filteredProducts (rt := codeUnitRuntime) [dupatta; scarf] "" "justIn")
    "name-asc"
  = [dupatta].
Proof. reflexivity. Qed.

(** The search ignores case. *)
Example pipeline_scenario_search :
  filteredProducts (rt := codeUnitRuntime) [dupatta; scarf] "SCARF" ""
  = [scarf].
Proof. reflexivity. Qed.

(** Price ascending puts "Rs 800" before "Rs 1500". *)
Example pipeline_scenario_price :
  sortedProducts (rt := codeUnitRuntime) [dupatta; scarf] "price-asc"
  = [scarf; dupatta].
Proof. reflexivity. Qed.

(** Twelve products: the window opens at 10, the first sentinel event
    takes it to 12 and not to 20, the second leaves it there. *)
Example window_scenario_twelve :
  let catalog := repeat dupatta 12 in
  map (fun evs => visibleCount (viewRun (rt := codeUnitRuntime) evs))
    [ [SetProducts catalog];
      [SetProducts catalog; SentinelEntry true];
      [SetProducts catalog; SentinelEntry true; SentinelEntry true];
      [SetProducts catalog; SentinelEntry true; SetSearchTerm "x"] ]
  = [10; 12; 12; 10].
Proof. vm_compute. reflexivity. Qed.

(* ================================================================= *)
(** ** More on price parsing *)

Lemma digitsOf_app (a b : string) :
  digitsOf (a ++ b) = (digitsOf a ++ digitsOf b)%list.
Proof.
  induction a as [|c a IH]; simpl; [reflexivity|].
  destruct (isDigit c); simpl; rewrite IH; reflexivity.
Qed.

(** X1. A character that is not a digit has no effect on the parsed price,
    wherever it stands: a decimal point or a thousands separator is
    dropped, so "Rs 1000.50" parses as "Rs 100050" does. *)
Theorem priceNum_ignores_non_digit (a b : string) (c : ascii) :
  isDigit c = false ->
  priceNum (a ++ String c b) = priceNum (a ++ b).
Proof.
  intros Hc. rewrite !priceNum_toDouble. unfold digitConcat.
  rewrite !digitsOf_app. simpl. rewrite Hc. reflexivity.
Qed.

Lemma priceNum_ignores_non_digit_witness :
  isDigit "." = false /\
  priceNum "Rs 1000.50" = priceNum "Rs 100050" /\
  priceNum "Rs 100050" = Finite 100050.
Proof.
  assert (Hc : isDigit "." = false) by reflexivity.
  split; [exact Hc|].
  split; [exact (priceNum_ignores_non_digit "Rs 1000" "50" "." Hc)|].
  reflexivity.
Defined.

(* ================================================================= *)
(** ** More on sorting *)

Lemma log2_two53 : Z.log2 two53 = 53.
Proof. reflexivity. Qed.

Lemma roundTiesToEven_pos (n : Z) : 0 < n -> 0 < roundTiesToEven n.
Proof.
  intros Hn. unfold roundTiesToEven.
  destruct (n <? two53) eqn:E; [assumption|].
  apply Z.ltb_ge in E. cbv zeta.
  assert (Hlog : 53 <= Z.log2 n)
    by (rewrite <- log2_two53; apply Z.log2_le_mono; exact E).
  set (e := Z.log2 n - 52).
  assert (He : 0 <= e) by (unfold e; lia).
  assert (Hq : 0 < Z.shiftr n e).
  { rewrite Z.shiftr_div_pow2 by exact He.
    apply Z.lt_le_trans with (2 ^ 52); [reflexivity|].
    apply Z.div_le_lower_bound; [apply Z.pow_pos_nonneg; lia|].
    rewrite <- Z.pow_add_r by lia.
    replace (e + 52) with (Z.log2 n) by (unfold e; lia).
    apply Z.log2_spec. exact Hn. }
  rewrite Z.shiftl_mul_pow2 by exact He.
  apply Z.mul_pos_pos; [|apply Z.pow_pos_nonneg; lia].
  destruct (Z.land n (Z.ones e) <? Z.shiftl 1 (e - 1)); [assumption|].
  destruct (Z.shiftl 1 (e - 1) <? Z.land n (Z.ones e)); [lia|].
  destruct (Z.even (Z.shiftr n e)); lia.
Qed.

(** Rounding to a double keeps the sign, also when it overflows. *)
Lemma sortOrder_toDouble (z : Z) : sortOrder (toDouble z) = Z.sgn z.
Proof.
  unfold toDouble.
  destruct (Z.lt_trichotomy z 0) as [Hneg|[->|Hpos]].
  - assert (Hr : 0 < roundTiesToEven (Z.abs z))
      by (apply roundTiesToEven_pos; lia).
    destruct (roundTiesToEven (Z.abs z) <? Z.shiftl 1 1024).
    + simpl. rewrite (Z.sgn_neg z) by assumption.
      apply Z.sgn_neg. lia.
    + assert (Hz : (z <? 0) = true) by (apply Z.ltb_lt; assumption).
      rewrite Hz. simpl. symmetry. apply Z.sgn_neg. assumption.
  - reflexivity.
  - assert (Hr : 0 < roundTiesToEven (Z.abs z))
      by (apply roundTiesToEven_pos; lia).
    destruct (roundTiesToEven (Z.abs z) <? Z.shiftl 1 1024).
    + simpl. rewrite (Z.sgn_pos z) by assumption.
      apply Z.sgn_pos. lia.
    + assert (Hz : (z <? 0) = false) by (apply Z.ltb_ge; lia).
      rewrite Hz. simpl. symmetry. apply Z.sgn_pos. assumption.
Qed.

(** On prices, the comparator [priceA - priceB] is not positive exactly
    when [priceA] is at most [priceB]; two infinite prices give NaN, a
    tie. *)
Lemma price_difference_order (a b : number) :
  nonNegative a -> nonNegative b ->
  (sortOrder (numberSub a b) <= 0 <-> numberLe a b).
Proof.
  destruct a as [x| | |]; destruct b as [y| | |]; simpl;
    try contradiction; intros _ _;
    try rewrite sortOrder_toDouble; try lia; tauto.
Qed.

Lemma numberLe_transitive (a b c : number) :
  numberLe a b -> numberLe b c -> numberLe a c.
Proof.
  destruct a, b, c; simpl; try tauto; lia.
Qed.

Lemma numberLe_total (a b : number) :
  nonNegative a -> nonNegative b -> ~ numberLe a b -> numberLe b a.
Proof.
  destruct a, b; simpl; try tauto; lia.
Qed.

Lemma Sorted_weaken {A : Type} (R R' : A -> A -> Prop) (l : list A) :
  (forall a b, R a b -> R' a b) -> Sorted R l -> Sorted R' l.
Proof.
  intros Himp. induction l as [|a l IH]; intros Hs; [constructor|].
  inversion Hs as [|? ? Hl Hhd]; subst. constructor; [apply IH; exact Hl|].
  destruct l as [|b l]; constructor.
  inversion Hhd; subst. apply Himp. assumption.
Qed.

Section PriceSort.

Context {rt : StringRuntime}.

Lemma notAfter_cmpPriceAsc (a b : Product) :
  notAfter cmpPriceAsc a b <-> cheaperFirst a b.
Proof.
  unfold notAfter, cmpPriceAsc, cheaperFirst. cbv zeta.
  apply price_difference_order; apply priceNum_nonNegative.
Qed.

Lemma notAfter_cmpPriceDesc (a b : Product) :
  notAfter cmpPriceDesc a b <-> cheaperFirst b a.
Proof.
  unfold notAfter, cmpPriceDesc, cheaperFirst. cbv zeta.
  apply price_difference_order; apply priceNum_nonNegative.
Qed.

(** X2. Sorting by price lists the products in order of their parsed
    prices, every earlier product against every later one: never
    decreasing for "price-asc", never increasing for "price-desc". A price
    that parsed to [+Infinity] counts as the largest. *)
Theorem sortedProducts_price_ordered (l : list Product) :
  StronglySorted cheaperFirst (sortedProducts l "price-asc") /\
  StronglySorted (fun a b => cheaperFirst b a) (sortedProducts l "price-desc").
Proof.
  unfold sortedProducts. simpl. split.
  - apply Sorted_StronglySorted.
    { intros x y z. apply numberLe_transitive. }
    apply Sorted_weaken with (notAfter cmpPriceAsc).
    { intros a b. apply notAfter_cmpPriceAsc. }
    apply sort_sorted. intros x y H.
    apply notAfter_cmpPriceAsc. apply numberLe_total;
      try apply priceNum_nonNegative.
    intros H'. apply H. apply notAfter_cmpPriceAsc. exact H'.
  - apply Sorted_StronglySorted.
    { intros x y z Hxy Hyz. exact (numberLe_transitive _ _ _ Hyz Hxy). }
    apply Sorted_weaken with (notAfter cmpPriceDesc).
    { intros a b. apply notAfter_cmpPriceDesc. }
    apply sort_sorted. intros x y H.
    apply notAfter_cmpPriceDesc. apply numberLe_total;
      try apply priceNum_nonNegative.
    intros H'. apply H. apply notAfter_cmpPriceDesc. exact H'.
Qed.

Lemma sortedProducts_rearranges (l : list Product) (sortOption : string) :
  Permutation (sortedProducts l sortOption) l.
Proof.
  unfold sortedProducts.
  destruct (sortOption =? "name-asc")%string; [apply sort_permutation|].
  destruct (sortOption =? "name-desc")%string; [apply sort_permutation|].
  destruct (sortOption =? "price-asc")%string; [apply sort_permutation|].
  destruct (sortOption =? "price-desc")%string; [apply sort_permutation|].
  apply Permutation_refl.
Qed.

(** X3. Sorting neither loses nor duplicates a product, whatever the value
    of the sort option: the result is a rearrangement of the filtered
    list, with as many entries of each product and the same length. *)
Theorem sortedProducts_permutation (l : list Product) (sortOption : string) :
  Permutation (sortedProducts l sortOption) l /\
  List.length (sortedProducts l sortOption) = List.length l.
Proof.
  split; [apply sortedProducts_rearranges|].
  apply Permutation_length, sortedProducts_rearranges.
Qed.

End PriceSort.

(** A stable sort keeps the order of the elements of a class whose members
    tie with one another. *)
Lemma insertSorted_filter {A : Type} (cmp : A -> A -> number)
  (P : A -> bool) (x : A) (l : list A) :
  (forall a b, P a = true -> P b = true -> sortOrder (cmp a b) <= 0) ->
  filter P (insertSorted cmp x l) = filter P (x :: l).
Proof.
  intros Htie. induction l as [|y l IH]; [reflexivity|].
  cbn [insertSorted].
  destruct (sortOrder (cmp x y) <=? 0) eqn:E; [reflexivity|].
  apply Z.leb_gt in E.
  cbn [filter] in *. rewrite IH.
  destruct (P x) eqn:Px; [|reflexivity].
  destruct (P y) eqn:Py; [|reflexivity].
  specialize (Htie x y Px Py). lia.
Qed.

Lemma sort_filter {A : Type} (cmp : A -> A -> number) (P : A -> bool)
  (l : list A) :
  (forall a b, P a = true -> P b = true -> sortOrder (cmp a b) <= 0) ->
  filter P (sort cmp l) = filter P l.
Proof.
  intros Htie. induction l as [|x l IH]; [reflexivity|].
  cbn [sort fold_right]. fold (sort cmp l).
  rewrite insertSorted_filter by exact Htie.
  cbn [filter]. rewrite IH. reflexivity.
Qed.

Lemma numberEqb_eq (a b : number) : numberEqb a b = true -> a = b.
Proof.
  destruct a, b; simpl; try discriminate; try reflexivity.
  intros H. apply Z.eqb_eq in H. subst. reflexivity.
Qed.

Lemma numberSub_same (v : number) : sortOrder (numberSub v v) = 0.
Proof.
  destruct v; simpl; try reflexivity.
  rewrite sortOrder_toDouble, Z.sub_diag. reflexivity.
Qed.

Section Pipeline.

Context {rt : StringRuntime}.

(** X4. The price sorts break ties by input order: for every price value,
    the products with that parsed price stand in the sorted list in the
    order they had before sorting, under "price-asc" and "price-desc"
    alike. *)
Theorem sortedProducts_price_stable (l : list Product) (v : number) :
  filter (hasPrice v) (sortedProducts l "price-asc") = filter (hasPrice v) l /\
  filter (hasPrice v) (sortedProducts l "price-desc") = filter (hasPrice v) l.
Proof.
  unfold sortedProducts. simpl. split; apply sort_filter; intros a b Ha Hb;
    unfold hasPrice in Ha, Hb;
    apply numberEqb_eq in Ha; apply numberEqb_eq in Hb;
    unfold cmpPriceAsc, cmpPriceDesc; cbv zeta; rewrite Ha, Hb;
    rewrite numberSub_same; lia.
Qed.

Lemma slice0_firstn {A : Type} (l : list A) (n : Z) :
  exists k : nat, slice0 l n = firstn k l.
Proof. unfold slice0. eexists. reflexivity. Qed.

Lemma firstn_incl {A : Type} (k : nat) (l : list A) (x : A) :
  In x (firstn k l) -> In x l.
Proof.
  intros H. rewrite <- (firstn_skipn k l). apply in_or_app. left. exact H.
Qed.

(** X5. Nothing is displayed that should not be: every product shown is a
    product of the catalog that passes the filter of the current search
    term and recent-filter mode, whatever the sort option and the window
    size. *)
Theorem visibleProducts_sound (st : ViewState) (p : Product) :
  In p (visibleProducts (viewSorted st) (visibleCount st)) ->
  In p (products st) /\
  keepProduct (searchTerm st) (filterJustIn st) p = true.
Proof.
  unfold visibleProducts, viewSorted. intros H.
  destruct (slice0_firstn
              (sortedProducts
                 (filteredProducts (products st) (searchTerm st)
                    (filterJustIn st)) (sortOption st))
              (visibleCount st)) as [k Hk].
  rewrite Hk in H. apply firstn_incl in H.
  apply (Permutation_in _ (sortedProducts_rearranges _ _)) in H.
  unfold filteredProducts in H. apply filter_In in H. exact H.
Qed.

Lemma slice0_all {A : Type} (l : list A) (n : Z) :
  Z.of_nat (List.length l) <= n -> slice0 l n = l.
Proof.
  intros H. unfold slice0.
  assert (E : (n <? 0) = false) by (apply Z.ltb_ge; lia).
  rewrite E, Z.min_r by exact H.
  rewrite Nat2Z.id. apply firstn_all.
Qed.

(** X6. Nothing is withheld once the window covers the list: when the
    window size is at least the length of the filtered/sorted list, the
    products shown are that whole list, so every catalog product passing
    the filter is on the page. *)
Theorem visibleProducts_complete (st : ViewState) :
  viewLength st <= visibleCount st ->
  visibleProducts (viewSorted st) (visibleCount st) = viewSorted st /\
  (forall p, In p (products st) ->
     keepProduct (searchTerm st) (filterJustIn st) p = true ->
     In p (visibleProducts (viewSorted st) (visibleCount st))).
Proof.
  intros Hfull. unfold viewLength in Hfull.
  assert (E : visibleProducts (viewSorted st) (visibleCount st)
              = viewSorted st)
    by (unfold visibleProducts; apply slice0_all; exact Hfull).
  split; [exact E|].
  intros p Hin Hkeep. rewrite E. unfold viewSorted.
  apply (Permutation_in _
           (Permutation_sym (sortedProducts_rearranges _ _))).
  unfold filteredProducts. apply filter_In. split; assumption.
Qed.

Lemma firstn_prefix {A : Type} (a b : nat) (l : list A) :
  (a <= b)%nat -> exists rest, firstn b l = (firstn a l ++ rest)%list.
Proof.
  revert b l. induction a as [|a IH]; intros b l Hab.
  - exists (firstn b l). reflexivity.
  - destruct b as [|b]; [lia|]. destruct l as [|x l].
    + exists []. reflexivity.
    + destruct (IH b l) as [rest Hr]; [lia|].
      exists rest. simpl. rewrite Hr. reflexivity.
Qed.

(** X7. Growing the window only adds products at the end: for window sizes
    [0 <= n <= m], what is shown at size [m] starts with what is shown at
    size [n], in the same order. *)
Theorem visibleProducts_grows_at_end (sorted : list Product) (n m : Z) :
  0 <= n <= m ->
  exists more : list Product,
    visibleProducts sorted m = (visibleProducts sorted n ++ more)%list.
Proof.
  intros [H0 Hnm]. unfold visibleProducts, slice0.
  assert (En : (n <? 0) = false) by (apply Z.ltb_ge; lia).
  assert (Em : (m <? 0) = false) by (apply Z.ltb_ge; lia).
  rewrite En, Em. apply firstn_prefix. lia.
Qed.

End Pipeline.

Lemma visibleProducts_sound_witness :
  let st := viewRun (rt := codeUnitRuntime)
              [SetProducts [dupatta; scarf]; SetSearchTerm "scarf"] in
  In scarf
    (visibleProducts (viewSorted (rt := codeUnitRuntime) st)
       (visibleCount st)) /\
  In scarf (products st).
Proof.
  cbv zeta.
  assert (H : In scarf
                (visibleProducts (viewSorted (rt := codeUnitRuntime)
                      (viewRun (rt := codeUnitRuntime)
                         [SetProducts [dupatta; scarf];
                          SetSearchTerm "scarf"]))
                   (visibleCount
                      (viewRun (rt := codeUnitRuntime)
                         [SetProducts [dupatta; scarf];
                          SetSearchTerm "scarf"]))))
    by (left; reflexivity).
  split; [exact H|].
  exact (proj1 (visibleProducts_sound (rt := codeUnitRuntime) _ scarf H)).
Defined.

Lemma visibleProducts_complete_witness :
  let st := viewRun (rt := codeUnitRuntime) [SetProducts [dupatta; scarf]] in
  viewLength (rt := codeUnitRuntime) st <= visibleCount st /\
  visibleProducts (viewSorted (rt := codeUnitRuntime) st) (visibleCount st)
  = [dupatta; scarf].
Proof.
  cbv zeta.
  assert (Hfull :
    viewLength (rt := codeUnitRuntime)
      (viewRun (rt := codeUnitRuntime) [SetProducts [dupatta; scarf]])
    <= visibleCount
         (viewRun (rt := codeUnitRuntime) [SetProducts [dupatta; scarf]]))
    by (apply Z.leb_le; reflexivity).
  split; [exact Hfull|].
  exact (proj1 (visibleProducts_complete (rt := codeUnitRuntime) _ Hfull)).
Defined.

Lemma visibleProducts_grows_at_end_witness :
  0 <= 1 <= 2 /\
  exists more : list Product,
    visibleProducts [scarf; dupatta] 2
    = (visibleProducts [scarf; dupatta] 1 ++ more)%list.
Proof.
  assert (H : 0 <= 1 <= 2) by lia.
  split; [exact H|].
  exact (visibleProducts_grows_at_end [scarf; dupatta] 1 2 H).
Defined.

(* ================================================================= *)
(** ** More on filtering *)

Lemma isSubstring_transitive (a b c : string) :
  isSubstring a b -> isSubstring b c -> isSubstring a c.
Proof.
  intros [p1 [q1 H1]] [p2 [q2 H2]]. subst b c.
  exists (p2 ++ p1)%string, (q1 ++ q2)%string.
  assert (Hassoc : forall x y z : string,
             ((x ++ y) ++ z)%string = (x ++ y ++ z)%string).
  { intros x y z. induction x as [|ch x IH]; simpl; [reflexivity|].
    rewrite IH. reflexivity. }
  rewrite !Hassoc. reflexivity.
Qed.

Section MoreFilterFacts.

Context {rt : StringRuntime}.

(** X8. A product whose [justIn] flag is absent is listed under "All
    Products" only: both the "Just In" filter and the "Not Just In" filter
    (any non-empty filter value) leave it out. *)
Theorem filteredProducts_drops_unflagged
  (products : list Product) (searchTerm filterJustIn : string) (p : Product) :
  justIn p = None -> filterJustIn <> "" ->
  ~ In p (filteredProducts products searchTerm filterJustIn).
Proof.
  intros Hflag Hf Hin. unfold filteredProducts in Hin.
  apply filter_In in Hin. destruct Hin as [_ Hkeep].
  unfold keepProduct in Hkeep. apply andb_true_iff in Hkeep.
  destruct Hkeep as [_ Hkeep].
  apply String.eqb_neq in Hf. rewrite Hf, Hflag in Hkeep.
  destruct (filterJustIn =? "justIn")%string; discriminate Hkeep.
Qed.

(** X9. A longer search term narrows the result: when the lower-cased
    term [short] occurs in the lower-cased term [long], every product
    listed for [long] is listed for [short], with the same recent
    filter. *)
Theorem filteredProducts_narrows
  (products : list Product) (short long filterJustIn : string) (p : Product) :
  isSubstring (toLowerCase short) (toLowerCase long) ->
  In p (filteredProducts products long filterJustIn) ->
  In p (filteredProducts products short filterJustIn).
Proof.
  intros Hsub Hin. unfold filteredProducts in *.
  apply filter_In in Hin. apply filter_In.
  destruct Hin as [Hp Hkeep]. split; [exact Hp|].
  apply keepProduct_spec in Hkeep. apply keepProduct_spec.
  destruct Hkeep as [Hc Hm]. split; [|exact Hm].
  unfold lowerCasedContains in *.
  apply isSubstring_transitive with (toLowerCase long); assumption.
Qed.

End MoreFilterFacts.

Lemma filteredProducts_drops_unflagged_witness :
  let bagh := scenarioProduct "p3" "Bagh" "Rs 2000" None in
  justIn bagh = None /\ "notJustIn" <> "" /\
  ~ In bagh
      (filteredProducts (rt := codeUnitRuntime) [dupatta; bagh] "" "notJustIn").
Proof.
  cbv zeta.
  assert (Hflag : justIn (scenarioProduct "p3" "Bagh" "Rs 2000" None) = None)
    by reflexivity.
  assert (Hf : "notJustIn" <> "") by (intros H; discriminate H).
  split; [exact Hflag|]. split; [exact Hf|].
  exact (filteredProducts_drops_unflagged (rt := codeUnitRuntime)
           _ "" "notJustIn" _ Hflag Hf).
Defined.

Lemma filteredProducts_narrows_witness :
  isSubstring (toLowerCase (StringRuntime := codeUnitRuntime) "Sca")
    (toLowerCase (StringRuntime := codeUnitRuntime) "scarf") /\
  In scarf (filteredProducts (rt := codeUnitRuntime) [dupatta; scarf] "Sca" "").
Proof.
  assert (Hsub :
    isSubstring (toLowerCase (StringRuntime := codeUnitRuntime) "Sca")
      (toLowerCase (StringRuntime := codeUnitRuntime) "scarf"))
    by (exists "", "rf"; reflexivity).
  split; [exact Hsub|].
  apply (filteredProducts_narrows (rt := codeUnitRuntime)
           [dupatta; scarf] "Sca" "scarf" "" scarf Hsub).
  apply filter_In. split; [right; left; reflexivity|reflexivity].
Defined.

(* ================================================================= *)
(** ** More on the visible window *)

Section MoreWindowFacts.

Context {rt : StringRuntime}.

Lemma sentinel_step (st : ViewState) (b : bool) :
  viewStep st (SentinelEntry b)
  = setVisibleCount st
      (observerCallback (visibleCount st) (viewLength st) b (visibleCount st)).
Proof. reflexivity. Qed.

Lemma afterSentinels_length (k : nat) (st : ViewState) :
  viewSorted (afterSentinels k st) = viewSorted st.
Proof.
  unfold afterSentinels. revert st.
  induction k as [|k IH]; intros st; simpl; [reflexivity|].
  rewrite IH. reflexivity.
Qed.

Lemma afterSentinels_count (k : nat) (st : ViewState) :
  visibleCount (afterSentinels k st)
  = Z.max (visibleCount st)
      (Z.min (visibleCount st + 10 * Z.of_nat k) (viewLength st)).
Proof.
  unfold afterSentinels. revert st.
  induction k as [|k IH]; intros st.
  - simpl. lia.
  - cbn [repeat fold_left]. rewrite IH.
    rewrite sentinel_step, viewLength_setVisibleCount.
    cbn [visibleCount setVisibleCount].
    unfold observerCallback. cbn [andb].
    destruct (visibleCount st <? viewLength st) eqn:E.
    + apply Z.ltb_lt in E. lia.
    + apply Z.ltb_ge in E. lia.
Qed.

(** X10. The window after [k] events in which the sentinel is fully
    visible, from any state: it has grown by 10 per event up to the length
    of the list and not beyond, and a window that was already past the
    list has stayed; the list itself is the same. *)
Theorem visibleCount_after_sentinels (k : nat) (st : ViewState) :
  visibleCount (afterSentinels k st)
  = Z.max (visibleCount st)
      (Z.min (visibleCount st + 10 * Z.of_nat k) (viewLength st)) /\
  viewSorted (afterSentinels k st) = viewSorted st.
Proof.
  split; [apply afterSentinels_count|apply afterSentinels_length].
Qed.

(** X11. Scrolling reaches the end: from a state whose window size is not
    negative, once [10 * k] covers what is not yet shown, [k] events with
    the sentinel fully visible leave every product of the filtered/sorted
    list on the page. *)
Theorem afterSentinels_reveals_all (k : nat) (st : ViewState) :
  0 <= visibleCount st ->
  viewLength st <= visibleCount st + 10 * Z.of_nat k ->
  visibleProducts (viewSorted (afterSentinels k st))
    (visibleCount (afterSentinels k st))
  = viewSorted st.
Proof.
  intros H0 Hk.
  rewrite afterSentinels_length. unfold visibleProducts. apply slice0_all.
  rewrite afterSentinels_count. fold (viewLength st). lia.
Qed.

End MoreWindowFacts.

Lemma afterSentinels_reveals_all_witness :
  let st := viewRun (rt := codeUnitRuntime) [SetProducts (repeat dupatta 25)] in
  0 <= visibleCount st /\
  viewLength (rt := codeUnitRuntime) st <= visibleCount st + 10 * Z.of_nat 2 /\
  List.length
    (visibleProducts
       (viewSorted (rt := codeUnitRuntime)
          (afterSentinels (rt := codeUnitRuntime) 2 st))
       (visibleCount (afterSentinels (rt := codeUnitRuntime) 2 st)))
  = 25%nat.
Proof.
  cbv zeta.
  set (st := viewRun (rt := codeUnitRuntime) [SetProducts (repeat dupatta 25)]).
  assert (H0 : 0 <= visibleCount st) by (apply Z.leb_le; reflexivity).
  assert (Hk : viewLength (rt := codeUnitRuntime) st
               <= visibleCount st + 10 * Z.of_nat 2)
    by (apply Z.leb_le; reflexivity).
  split; [exact H0|]. split; [exact Hk|].
  rewrite (afterSentinels_reveals_all (rt := codeUnitRuntime) 2 st H0 Hk).
  reflexivity.
Defined.

(* ================================================================= *)
(** ** More on the cart merge *)

Lemma sumOf_app (a b : list Z) : sumOf (a ++ b) = sumOf a + sumOf b.
Proof.
  induction a as [|n a IH]; simpl; [reflexivity|]. rewrite IH. lia.
Qed.

(** The increment of every entry of a product is exact while each
    quantity stays within 2^53. *)
Lemma increment_quantities
  (id : string) (cart : list CartItem) (counts : list Z) :
  quantitiesAre cart counts ->
  sumOf counts + 1 <= two53 ->
  exists counts' : list Z,
    quantitiesAre
      (map (fun item =>
              if (productId item =? id)%string
              then withQuantity item (jsAdd (quantity item) (jsNumber 1))
              else item) cart)
      counts' /\
    sumOf counts'
    = sumOf counts + Z.of_nat (List.length (entriesOf id cart)).
Proof.
  unfold entriesOf.
  induction 1 as [|item n cart counts [Hn Hq] Hrest IH]; intros Hsum.
  - exists []. split; [constructor|reflexivity].
  - pose proof (sumOf_nonneg _ _ Hrest) as Hpos.
    cbn [sumOf] in Hsum.
    destruct IH as [counts' [Hq' Hs']]; [lia|].
    cbn [map filter].
    destruct (productId item =? id)%string.
    + exists ((n + 1) :: counts'). split.
      * constructor; [|exact Hq']. split; [lia|].
        cbn [quantity withQuantity]. rewrite Hq.
        apply jsAdd_exact; lia.
      * cbn [sumOf List.length]. lia.
    + exists (n :: counts'). split.
      * constructor; [|exact Hq']. split; [exact Hn|exact Hq].
      * cbn [sumOf]. lia.
Qed.

Lemma quantitiesAre_app (a b : list CartItem) (m n : list Z) :
  quantitiesAre a m -> quantitiesAre b n ->
  quantitiesAre (a ++ b) (m ++ n).
Proof. unfold quantitiesAre. apply Forall2_app. Qed.

Lemma entriesOf_none (id : string) (cart : list CartItem) :
  find (fun item => (productId item =? id)%string) cart = None ->
  entriesOf id cart = [].
Proof.
  unfold entriesOf. induction cart as [|a l IH]; simpl; [reflexivity|].
  destruct (productId a =? id)%string; [discriminate|exact IH].
Qed.

Lemma entriesOf_some (id : string) (cart : list CartItem) (item : CartItem) :
  find (fun item => (productId item =? id)%string) cart = Some item ->
  (1 <= List.length (entriesOf id cart))%nat.
Proof.
  unfold entriesOf. induction cart as [|a l IH]; simpl; [discriminate|].
  destruct (productId a =? id)%string; simpl; [lia|exact IH].
Qed.

Lemma entriesOf_unique (id : string) (cart : list CartItem) :
  uniqueProducts cart -> (List.length (entriesOf id cart) <= 1)%nat.
Proof.
  unfold uniqueProducts, entriesOf.
  induction cart as [|a l IH]; simpl; intros Hnd; [lia|].
  inversion Hnd as [|? ? Hnotin Hnd']; subst.
  destruct (productId a =? id)%string eqn:E; [|apply IH; exact Hnd'].
  apply String.eqb_eq in E. simpl.
  assert (Hnone : find (fun item => (productId item =? id)%string) l = None)
    by (apply find_productId_none; rewrite <- E; exact Hnotin).
  apply entriesOf_none in Hnone. unfold entriesOf in Hnone.
  rewrite Hnone. simpl. lia.
Qed.

(** X12. What one add does to the cart badge, for a cart whose quantities
    are non-negative integers. The total grows by the number [k] of
    entries the cart holds for the product, and by one when it holds none,
    as long as the new total is at most 2^53; in a cart with one entry per
    product that is exactly one. *)
Theorem updatedCartItems_total
  (cart : list CartItem) (counts : list Z) (product : Product) :
  let k := Z.max 1 (Z.of_nat (List.length (entriesOf (_id product) cart))) in
  quantitiesAre cart counts ->
  sumOf counts + k <= two53 ->
  totalQuantity cart = jsNumber (sumOf counts) /\
  totalQuantity (updatedCartItems cart product)
  = jsNumber (sumOf counts + k) /\
  integerValue (totalQuantity (updatedCartItems cart product))
  = Some (sumOf counts + k) /\
  (uniqueProducts cart -> k = 1).
Proof.
  cbv zeta. intros Hq Hsum.
  pose proof (sumOf_nonneg _ _ Hq) as Hpos.
  split; [apply totalQuantity_exact; [exact Hq|lia]|].
  assert (Htotal :
    totalQuantity (updatedCartItems cart product)
    = jsNumber
        (sumOf counts
         + Z.max 1 (Z.of_nat (List.length (entriesOf (_id product) cart))))).
  { unfold updatedCartItems.
    destruct (find (fun item => (productId item =? _id product)%string) cart)
      as [existing|] eqn:Hfind.
    - destruct (increment_quantities (_id product) cart counts Hq)
        as [counts' [Hq' Hs']]; [lia|].
      pose proof (entriesOf_some _ _ _ Hfind) as Hone.
      rewrite (totalQuantity_exact _ counts' Hq') by lia.
      f_equal. lia.
    - rewrite (entriesOf_none _ _ Hfind) in *. simpl in Hsum |- *.
      rewrite (totalQuantity_exact _ (counts ++ [1])).
      + rewrite sumOf_app. reflexivity.
      + apply quantitiesAre_app; [exact Hq|].
        constructor; [|constructor]. split; [lia|reflexivity].
      + rewrite sumOf_app. simpl. lia. }
  split; [exact Htotal|]. split.
  - rewrite Htotal. apply integerValue_jsNumber. lia.
  - intros Hu. pose proof (entriesOf_unique (_id product) cart Hu). lia.
Qed.

Lemma updatedCartItems_total_witness :
  let cart := [itemOf dupatta 1; itemOf scarf 1] in
  let twice := [itemOf dupatta 1; itemOf dupatta 1] in
  quantitiesAre cart [1; 1] /\
  quantitiesAre twice [1; 1] /\
  totalQuantity (updatedCartItems cart dupatta) = jsNumber 3 /\
  totalQuantity (updatedCartItems twice dupatta) = jsNumber 4.
Proof.
  cbv zeta.
  assert (Hq : quantitiesAre [itemOf dupatta 1; itemOf scarf 1] [1; 1]).
  { constructor; [split; [lia|reflexivity]|].
    constructor; [split; [lia|reflexivity]|constructor]. }
  assert (Hq2 : quantitiesAre [itemOf dupatta 1; itemOf dupatta 1] [1; 1]).
  { constructor; [split; [lia|reflexivity]|].
    constructor; [split; [lia|reflexivity]|constructor]. }
  split; [exact Hq|]. split; [exact Hq2|]. split.
  - refine (proj1 (proj2 (updatedCartItems_total _ [1; 1] dupatta Hq _))).
    vm_compute. discriminate.
  - refine (proj1 (proj2 (updatedCartItems_total _ [1; 1] dupatta Hq2 _))).
    vm_compute. discriminate.
Defined.

(** X13. Adding a product [n] times, [1 <= n <= 2^53], to a cart that does
    not hold it appends one item for it, of quantity [n], and leaves the
    other items as they were. *)
Theorem updatedCartItems_repeated
  (n : nat) (cart : list CartItem) (product : Product) :
  ~ In (_id product) (map productId cart) ->
  Z.of_nat (S n) <= two53 ->
  Nat.iter (S n) (fun c => updatedCartItems c product) cart
  = (cart ++
     [ {| productId := _id product;
          item_name := name product;
          item_price := priceNum (price product);
          quantity := jsNumber (Z.of_nat (S n)) |} ])%list /\
  integerValue (jsNumber (Z.of_nat (S n))) = Some (Z.of_nat (S n)).
Proof.
  intros Hnot Hn. split; [|apply integerValue_jsNumber; lia].
  induction n as [|n IH].
  - simpl. unfold updatedCartItems.
    apply find_productId_none in Hnot. rewrite Hnot. reflexivity.
  - rewrite Nat.iter_succ, IH by lia.
    unfold updatedCartItems.
    destruct (find (fun item => (productId item =? _id product)%string) _)
      as [existing|] eqn:Hfind.
    + rewrite map_app, increment_absent by exact Hnot.
      cbn [map productId]. rewrite String.eqb_refl.
      unfold withQuantity. cbn [productId item_name item_price quantity].
      rewrite jsAdd_exact by lia.
      repeat f_equal. lia.
    + exfalso. apply find_productId_none in Hfind. apply Hfind.
      rewrite map_app. apply in_or_app. right. left. reflexivity.
Qed.

Lemma updatedCartItems_repeated_witness :
  ~ In (_id dupatta) (map productId [itemOf scarf 1]) /\
  Z.of_nat 3 <= two53 /\
  Nat.iter 3 (fun c => updatedCartItems c dupatta) [itemOf scarf 1]
  = [itemOf scarf 1; itemOf dupatta 3].
Proof.
  assert (Hnot : ~ In (_id dupatta) (map productId [itemOf scarf 1])).
  { simpl. intros [H|[]]. discriminate H. }
  assert (Hn : Z.of_nat 3 <= two53) by (vm_compute; discriminate).
  split; [exact Hnot|]. split; [exact Hn|].
  exact (proj1 (updatedCartItems_repeated 2 [itemOf scarf 1] dupatta Hnot Hn)).
Defined.

(** X14. An item keeps what it recorded of its product when it was first
    added: a later add, even of a product whose name or price has changed
    since, leaves the identifier, the name and the price of every item
    already in the cart as they were, in the same positions. *)
Theorem updatedCartItems_keeps_recorded
  (cart : list CartItem) (product : Product) :
  firstn (List.length cart)
    (map itemIdentity (updatedCartItems cart product))
  = map itemIdentity cart.
Proof.
  unfold updatedCartItems.
  destruct (find (fun item => (productId item =? _id product)%string) cart).
  - rewrite map_map.
    rewrite <- (length_map itemIdentity cart) at 1.
    assert (E : map (fun x => itemIdentity
                       (if (productId x =? _id product)%string
                        then withQuantity x
                               (jsAdd (quantity x) (jsNumber 1))
                        else x)) cart
                = map itemIdentity cart).
    { apply map_ext. intros a.
      destruct (productId a =? _id product)%string; reflexivity. }
    rewrite E. apply firstn_all.
  - rewrite map_app. rewrite <- (length_map itemIdentity cart) at 1.
    rewrite firstn_app, firstn_all, Nat.sub_diag. simpl. apply app_nil_r.
Qed.

(* ================================================================= *)
(** ** More on the handler *)

(** X15. A signed-in click, whatever the network does: the handler lets no
    error escape, sends exactly one request (it never retries), ends with
    exactly one toast, the success toast when the server accepted the
    write and the error toast otherwise, and leaves the same cart state
    in both cases: the merged items, and as count what the reduce over
    their quantities gives, their sum when they are non-negative integers
    of sum at most 2^53. *)
Theorem handleAddToCart_any_outcome
  (net : Request -> FetchOutcome) (w : World) (u : User) (product : Product) :
  let updated := updatedCartItems (cartItems w) product in
  let req := persistRequest u updated in
  let r := run net (clickAddToCart w (Some u) product) w in
  snd r = inl tt /\
  cartItems (fst r) = updated /\
  cartCount (fst r) = totalQuantity updated /\
  filter isFetch (trace (fst r))
  = (filter isFetch (trace w) ++ [EvFetch req])%list /\
  last (trace (fst r)) (EvRouterPush "")
  = (if persisted (net req)
     then EvToastSuccess "Item added to Cart" toastOptions
     else EvToastError "Error updating your cart. Please try again."
            toastOptions) /\
  (forall counts : list Z,
     quantitiesAre updated counts -> sumOf counts <= two53 ->
     cartCount (fst r) = jsNumber (sumOf counts)).
Proof.
  cbv zeta. unfold clickAddToCart, handleAddToCart. cbv zeta.
  set (updated := updatedCartItems (cartItems w) product).
  unfold persistRequest. simpl.
  destruct (net _) as [[[|]]|reason]; simpl;
    unfold logEvent; simpl;
    (split; [reflexivity|]); (split; [reflexivity|]);
    (split; [reflexivity|]);
    (split; [repeat rewrite filter_app; simpl; repeat rewrite app_nil_r;
             reflexivity|]);
    (split; [apply last_last|]);
    intros counts Hq Hsum; apply totalQuantity_exact; assumption.
Qed.

Lemma handleAddToCart_any_outcome_witness :
  let w := {| cartItems := [itemOf dupatta 1]; cartCount := jsNumber 1;
              trace := [] |} in
  let net := fun _ : Request => Rejected "offline" in
  quantitiesAre (updatedCartItems (cartItems w) scarf) [1; 1] /\
  cartCount (fst (run net (clickAddToCart w (Some signedIn) scarf) w))
  = jsNumber 2.
Proof.
  cbv zeta.
  assert (Hq :
    quantitiesAre (updatedCartItems [itemOf dupatta 1] scarf) [1; 1]).
  { constructor; [split; [lia|reflexivity]|].
    constructor; [split; [lia|reflexivity]|constructor]. }
  assert (Hsum : sumOf [1; 1] <= two53) by (vm_compute; discriminate).
  split; [exact Hq|].
  pose proof
    (handleAddToCart_any_outcome (fun _ : Request => Rejected "offline")
       {| cartItems := [itemOf dupatta 1]; cartCount := jsNumber 1;
          trace := [] |} signedIn scarf) as [_ [_ [_ [_ [_ H]]]]].
  exact (H [1; 1] Hq Hsum).
Defined.
(* ================================================================= *)
(** ** The loaders *)

(** X16. Loading the catalog, whatever the network does: one GET of
    "/api/products" is sent, no error escapes and the loading flag ends
    [false]; the product list becomes the decoded body when the response
    is a success with a JSON body, and otherwise stays what it was, with
    one error logged to the console. The cart is not touched. *)
Theorem fetchProducts_settles
  (net : string -> GetOutcome (list Product)) (st : PageState) :
  let r := runLoad net fetchProducts st in
  snd r = None /\
  page_productsLoading (fst r) = false /\
  page_requests (fst r) = (page_requests st ++ ["/api/products"])%list /\
  page_cartItems (fst r) = page_cartItems st /\
  page_cartCount (fst r) = page_cartCount st /\
  match loaded (net "/api/products") with
  | Some data =>
      page_products (fst r) = data /\ page_console (fst r) = page_console st
  | None =>
      page_products (fst r) = page_products st /\
      exists error : string,
        page_console (fst r) = (page_console st ++ [[error]])%list
  end.
Proof.
  cbv zeta. unfold fetchProducts, getJson. simpl.
  destruct (net "/api/products") as [[[|] [data|reason]]|reason]; simpl;
    repeat split; eexists; reflexivity.
Qed.

(** X17. Loading the cart of a signed-in user, whatever the network does:
    one GET for that user is sent and no error escapes. A successful
    response whose [items] is an array of items with numbers as
    quantities installs those items and, as the count, what the reduce
    over their quantities gives, which is their exact sum when they are
    non-negative integers of sum at most 2^53; a successful response of
    any other shape installs the empty cart and the count 0; a failed
    request, a non-success status or a body that is not JSON leaves items
    and count as they were and logs one error. *)
Theorem fetchCart_settles
  (net : string -> GetOutcome CartData) (u : User) (st : PageState) :
  let target := ("/api/cart?userId=" ++ uid u)%string in
  let r := runLoad net (cartEffect (Some u)) st in
  snd r = None /\
  page_requests (fst r) = (page_requests st ++ [target])%list /\
  page_products (fst r) = page_products st /\
  match loaded (net target) with
  | Some (CartDataValue (Some items)) =>
      page_cartItems (fst r) = items /\
      page_cartCount (fst r) = totalQuantity items /\
      (forall counts : list Z,
         quantitiesAre items counts -> sumOf counts <= two53 ->
         page_cartCount (fst r) = jsNumber (sumOf counts)) /\
      page_console (fst r) = page_console st
  | Some _ =>
      page_cartItems (fst r) = [] /\
      page_cartCount (fst r) = jsNumber 0 /\
      page_console (fst r) = page_console st
  | None =>
      page_cartItems (fst r) = page_cartItems st /\
      page_cartCount (fst r) = page_cartCount st /\
      exists error : string,
        page_console (fst r) = (page_console st ++ [[error]])%list
  end.
Proof.
  cbv zeta. unfold cartEffect, fetchCart, getJson. simpl.
  destruct (net _) as [[[|] [[|[items|]]|reason]]|reason]; simpl;
    repeat split; try (eexists; reflexivity).
  intros counts Hq Hsum. apply totalQuantity_exact; assumption.
Qed.

Lemma fetchCart_settles_witness :
  let served := [itemOf dupatta 2; itemOf scarf 1] in
  let net := fun _ : string =>
    GetResolved
      {| get_ok := true;
         get_json := JsonValue (CartDataValue (Some served)) |} in
  quantitiesAre served [2; 1] /\
  page_cartCount (fst (runLoad net (cartEffect (Some signedIn)) initialPage))
  = jsNumber 3.
Proof.
  cbv zeta.
  assert (Hq : quantitiesAre [itemOf dupatta 2; itemOf scarf 1] [2; 1]).
  { constructor; [split; [lia|reflexivity]|].
    constructor; [split; [lia|reflexivity]|constructor]. }
  assert (Hsum : sumOf [2; 1] <= two53) by (vm_compute; discriminate).
  split; [exact Hq|].
  pose proof
    (fetchCart_settles
       (fun _ : string =>
          GetResolved
            {| get_ok := true;
               get_json :=
                 JsonValue
                   (CartDataValue
                      (Some [itemOf dupatta 2; itemOf scarf 1])) |})
       signedIn initialPage) as [_ [_ [_ H]]].
  exact (proj1 (proj2 (proj2 H)) [2; 1] Hq Hsum).
Defined.

(** X18. The count shown on the cart badge is what the reduce over the
    quantities of the cart held gives: if that holds before the cart
    effect runs, it holds after, for every identity or none and whatever
    the network does. *)
Theorem cartEffect_keeps_count
  (net : string -> GetOutcome CartData) (user : option User) (st : PageState) :
  page_cartCount st = totalQuantity (page_cartItems st) ->
  let st' := fst (runLoad net (cartEffect user) st) in
  page_cartCount st' = totalQuantity (page_cartItems st').
Proof.
  intros Hinv. cbv zeta. destruct user as [u|]; [|exact Hinv].
  unfold cartEffect, fetchCart, getJson. simpl.
  destruct (net _) as [[[|] [[|[items|]]|reason]]|reason]; simpl;
    try exact Hinv; reflexivity.
Qed.

Lemma cartEffect_keeps_count_witness :
  let net := fun _ : string =>
    GetResolved
      {| get_ok := true;
         get_json := JsonValue
           (CartDataValue (Some [itemOf dupatta 2; itemOf scarf 1])) |} in
  page_cartCount initialPage = totalQuantity (page_cartItems initialPage) /\
  page_cartCount (fst (runLoad net (cartEffect (Some signedIn)) initialPage))
  = jsNumber 3.
Proof.
  cbv zeta.
  assert (Hinv : page_cartCount initialPage
                 = totalQuantity (page_cartItems initialPage))
    by reflexivity.
  split; [exact Hinv|].
  rewrite (cartEffect_keeps_count _ (Some signedIn) initialPage Hinv).
  reflexivity.
Defined.

Lemma runLoad_fetchCart_loaded
  (net : string -> GetOutcome CartData) (u : User) (st : PageState)
  (items : list CartItem) :
  loaded (net ("/api/cart?userId=" ++ uid u)%string)
  = Some (CartDataValue (Some items)) ->
  page_cartItems (fst (runLoad net (cartEffect (Some u)) st)) = items.
Proof.
  unfold cartEffect, fetchCart, getJson. simpl.
  destruct (net _) as [[[|] [[|[items'|]]|reason]]|reason]; simpl;
    intros H; try discriminate H.
  injection H as H. exact H.
Qed.

Lemma runLoad_fetchCart_failed
  (net : string -> GetOutcome CartData) (u : User) (st : PageState) :
  loaded (net ("/api/cart?userId=" ++ uid u)%string) = None ->
  page_cartItems (fst (runLoad net (cartEffect (Some u)) st))
  = page_cartItems st.
Proof.
  unfold cartEffect, fetchCart, getJson. simpl.
  destruct (net _) as [[[|] [[|[items'|]]|reason]]|reason]; simpl;
    intros H; try discriminate H; reflexivity.
Qed.

Lemma run_handleAddToCart_fetch
  (net : Request -> FetchOutcome) (w : World) (u : User) (product : Product)
  (held : list CartItem) :
  cartItems w = held ->
  In (EvFetch (persistRequest u (updatedCartItems held product)))
     (trace (fst (run net (clickAddToCart w (Some u) product) w))).
Proof.
  intros <-. unfold clickAddToCart, handleAddToCart. cbv zeta.
  set (updated := updatedCartItems (cartItems w) product).
  unfold persistRequest. simpl.
  destruct (net _) as [[[|]]|reason]; simpl; unfold logEvent; simpl;
    repeat rewrite <- app_assoc; apply in_or_app; right; simpl; tauto.
Qed.

(** X19. Signing out does not empty the cart held by the page: the cart
    effect does nothing without an identity. If user [a]'s cart was
    loaded, [a] signs out, [b] signs in and the load of [b]'s cart fails,
    the page still holds [a]'s items, and [b]'s next "Add to Cart" posts
    them, merged with the added product, under [b]'s identifier. *)
Theorem cart_outlives_sign_out
  (netA netB : string -> GetOutcome CartData) (net : Request -> FetchOutcome)
  (a b : User) (loadedItems : list CartItem) (product : Product)
  (st0 : PageState) :
  loaded (netA ("/api/cart?userId=" ++ uid a)%string)
  = Some (CartDataValue (Some loadedItems)) ->
  loaded (netB ("/api/cart?userId=" ++ uid b)%string) = None ->
  let st1 := fst (runLoad netA (cartEffect (Some a)) st0) in
  let st2 := fst (runLoad netA (cartEffect None) st1) in
  let st3 := fst (runLoad netB (cartEffect (Some b)) st2) in
  let w := {| cartItems := page_cartItems st3;
              cartCount := page_cartCount st3;
              trace := [] |} in
  page_cartItems st2 = loadedItems /\
  page_cartItems st3 = loadedItems /\
  In (EvFetch (persistRequest b (updatedCartItems loadedItems product)))
     (trace (fst (run net (clickAddToCart w (Some b) product) w))).
Proof.
  intros HA HB. cbv zeta.
  assert (E2 : page_cartItems
                 (fst (runLoad netA (cartEffect None)
                         (fst (runLoad netA (cartEffect (Some a)) st0))))
               = loadedItems)
    by (simpl; apply runLoad_fetchCart_loaded; exact HA).
  assert (E3 : page_cartItems
                 (fst (runLoad netB (cartEffect (Some b))
                   (fst (runLoad netA (cartEffect None)
                           (fst (runLoad netA (cartEffect (Some a)) st0))))))
               = loadedItems)
    by (rewrite runLoad_fetchCart_failed by exact HB; exact E2).
  split; [exact E2|]. split; [exact E3|].
  apply run_handleAddToCart_fetch. exact E3.
Qed.

Lemma cart_outlives_sign_out_witness :
  let netA := fun _ : string =>
    GetResolved
      {| get_ok := true;
         get_json := JsonValue (CartDataValue (Some [newItem scarf])) |} in
  let netB := fun _ : string => @GetRejected CartData "offline" in
  let other := {| uid := "u2" |} in
  loaded (netA ("/api/cart?userId=" ++ uid signedIn)%string)
  = Some (CartDataValue (Some [newItem scarf])) /\
  loaded (netB ("/api/cart?userId=" ++ uid other)%string) = None /\
  page_cartItems
    (fst (runLoad netB (cartEffect (Some other))
       (fst (runLoad netA (cartEffect None)
          (fst (runLoad netA (cartEffect (Some signedIn)) initialPage))))))
  = [newItem scarf].
Proof.
  cbv zeta.
  assert (HA :
    loaded ((fun _ : string =>
               GetResolved
                 {| get_ok := true;
                    get_json :=
                      JsonValue (CartDataValue (Some [newItem scarf])) |})
              ("/api/cart?userId=" ++ uid signedIn)%string)
    = Some (CartDataValue (Some [newItem scarf]))) by reflexivity.
  assert (HB :
    loaded ((fun _ : string => @GetRejected CartData "offline")
              ("/api/cart?userId=" ++ uid {| uid := "u2" |})%string)
    = None) by reflexivity.
  split; [exact HA|]. split; [exact HB|].
  exact (proj1 (proj2
    (cart_outlives_sign_out _ _ (fun _ => Rejected "offline")
       signedIn {| uid := "u2" |} [newItem scarf] dupatta initialPage
       HA HB))).
Defined.

(* ================================================================= *)
(** ** The WhatsApp enquiry link *)

Lemma countUnit_app (u : codeUnit) (a b : jsString) :
  countUnit u (a ++ b)%list = (countUnit u a + countUnit u b)%nat.
Proof.
  induction a as [|v a IH]; simpl; [reflexivity|]. rewrite IH. lia.
Qed.

Lemma hexUnit_unreserved (n : N) :
  (n < 16)%N -> isUnreservedUnit (hexUnit n) = true.
Proof.
  intros H.
  assert (Hall :
    forallb (fun m => isUnreservedUnit (hexUnit m))
      (map N.of_nat (seq 0 16)) = true) by (vm_compute; reflexivity).
  rewrite forallb_forall in Hall. apply Hall.
  rewrite <- (N2Nat.id n). apply in_map. apply in_seq. lia.
Qed.

Lemma isUnreservedUnit_differs (c d : codeUnit) :
  isUnreservedUnit c = false -> isUnreservedUnit d = true ->
  (d =? c)%N = false.
Proof.
  intros Hc Hd. apply N.eqb_neq. intros E. subst d. congruence.
Qed.

(** An escape sequence holds the percent sign and hexadecimal digits
    only. *)
Lemma percentEncode_escapes (c : codeUnit) (cp : N) :
  isUnreservedUnit c = false -> c <> 37%N ->
  countUnit c (percentEncode cp) = O.
Proof.
  intros Hc Hpct. unfold percentEncode.
  induction (utf8 cp) as [|octet l IH]; [reflexivity|].
  cbn [flat_map]. rewrite countUnit_app, IH.
  unfold percentOctet. cbn [countUnit].
  rewrite (isUnreservedUnit_differs c (hexUnit ((octet / 16) mod 16)) Hc)
    by (apply hexUnit_unreserved; apply N.mod_lt; discriminate).
  rewrite (isUnreservedUnit_differs c (hexUnit (octet mod 16)) Hc)
    by (apply hexUnit_unreserved; apply N.mod_lt; discriminate).
  assert (E : (37 =? c)%N = false)
    by (apply N.eqb_neq; intros E; apply Hpct; symmetry; exact E).
  rewrite E. reflexivity.
Qed.

(** A code unit that [encodeURIComponent] escapes does not occur in its
    result. *)
Lemma encodeURIComponent_escapes_bounded
  (c : codeUnit) (n : nat) (s out : jsString) :
  isUnreservedUnit c = false -> c <> 37%N ->
  (List.length s <= n)%nat ->
  encodeURIComponent s = Some out -> countUnit c out = O.
Proof.
  intros Hc Hpct. revert s out.
  induction n as [|n IH]; intros s out Hlen Henc.
  - destruct s as [|u rest]; [|simpl in Hlen; lia].
    simpl in Henc. injection Henc as <-. reflexivity.
  - destruct s as [|u rest].
    + simpl in Henc. injection Henc as <-. reflexivity.
    + simpl in Hlen. cbn [encodeURIComponent] in Henc.
      destruct (isUnreservedUnit u) eqn:Hu.
      * destruct (encodeURIComponent rest) as [out'|] eqn:Hrest;
          [|discriminate Henc].
        simpl in Henc. injection Henc as <-. cbn [countUnit].
        rewrite (isUnreservedUnit_differs c u Hc Hu).
        apply (IH rest out'); [lia|exact Hrest].
      * destruct (isHighSurrogate u).
        -- destruct rest as [|low rest']; [discriminate Henc|].
           destruct (isLowSurrogate low); [|discriminate Henc].
           destruct (encodeURIComponent rest') as [out'|] eqn:Hrest;
             [|discriminate Henc].
           simpl in Henc. injection Henc as <-.
           rewrite countUnit_app, percentEncode_escapes by assumption.
           apply (IH rest' out'); [simpl in Hlen; lia|exact Hrest].
        -- destruct (isLowSurrogate u); [discriminate Henc|].
           destruct (encodeURIComponent rest) as [out'|] eqn:Hrest;
             [|discriminate Henc].
           simpl in Henc. injection Henc as <-.
           rewrite countUnit_app, percentEncode_escapes by assumption.
           apply (IH rest out'); [lia|exact Hrest].
Qed.

Lemma encodeURIComponent_escapes (c : codeUnit) (s out : jsString) :
  isUnreservedUnit c = false -> c <> 37%N ->
  encodeURIComponent s = Some out -> countUnit c out = O.
Proof.
  intros Hc Hpct.
  apply (encodeURIComponent_escapes_bounded c (List.length s));
    [exact Hc|exact Hpct|apply Nat.le_refl].
Qed.

(** Without a surrogate in the string, [encodeURIComponent] returns. *)
Lemma encodeURIComponent_returns (s : jsString) :
  noSurrogates s -> exists out, encodeURIComponent s = Some out.
Proof.
  induction 1 as [|u rest Hu _ [out' IH]]; [exists []; reflexivity|].
  unfold isSurrogate in Hu. apply orb_false_iff in Hu.
  destruct Hu as [Hhigh Hlow].
  cbn [encodeURIComponent]. rewrite Hhigh, Hlow, IH.
  destruct (isUnreservedUnit u); eexists; reflexivity.
Qed.

Lemma getWhatsAppMessage_noSurrogates (product : EnquiryProduct) :
  noSurrogates (getWhatsAppMessage product) <->
  noSurrogates (enquiry_name product) /\
  noSurrogates (enquiry_price product).
Proof.
  unfold getWhatsAppMessage, noSurrogates.
  rewrite !Forall_app. split.
  - intros [_ [Hn [_ [Hp _]]]]. split; assumption.
  - intros [Hn Hp].
    repeat split; try assumption; repeat constructor.
Qed.

(** X20. Whatever the name and the price of the product contain, the
    enquiry either opens a link or ends with the URIError of
    [encodeURIComponent]; it opens a link whenever the name and the price
    hold no surrogate code unit. The link that is opened is the fixed
    address followed by the encoded message; it has one [&] only, the
    one between the [phone] and the [text] parameters, two [=], no [#]
    and no space: the text of the message cannot end the parameter it is
    in or add another one. The link is opened in a new browsing
    context. *)
Theorem handleWhatsAppEnquiry_one_text_parameter (product : EnquiryProduct) :
  (forall link target : jsString,
     handleWhatsAppEnquiry product = WindowOpened link target ->
     (exists message : jsString,
        encodeURIComponent (getWhatsAppMessage product) = Some message /\
        link
        = (unitsOf "https://api.whatsapp.com/send?phone=+919510394742&text="
           ++ message)%list) /\
     countUnit 38%N link = 1%nat /\
     countUnit 61%N link = 2%nat /\
     countUnit 35%N link = 0%nat /\
     countUnit 32%N link = 0%nat /\
     target = unitsOf "_blank") /\
  (noSurrogates (enquiry_name product) ->
   noSurrogates (enquiry_price product) ->
   exists link : jsString,
     handleWhatsAppEnquiry product = WindowOpened link (unitsOf "_blank")) /\
  (handleWhatsAppEnquiry product = URIErrorThrown ->
   ~ (noSurrogates (enquiry_name product) /\
      noSurrogates (enquiry_price product))).
Proof.
  unfold handleWhatsAppEnquiry. split; [|split].
  - intros link target.
    destruct (encodeURIComponent (getWhatsAppMessage product))
      as [message|] eqn:Henc; [|discriminate].
    intros H.
    assert (El :
      link
      = (unitsOf "https://api.whatsapp.com/send?phone=+919510394742&text="
         ++ message)%list) by congruence.
    assert (Et : target = unitsOf "_blank") by congruence.
    clear H. subst link target.
    split; [exists message; split; reflexivity|].
    assert (Hout : forall c : codeUnit,
              isUnreservedUnit c = false -> c <> 37%N ->
              countUnit c message = O).
    { intros c Hc Hpct.
      exact (encodeURIComponent_escapes c _ message Hc Hpct Henc). }
    rewrite !countUnit_app.
    rewrite (Hout 38%N), (Hout 61%N), (Hout 35%N), (Hout 32%N);
      try reflexivity; try discriminate.
    repeat split.
  - intros Hn Hp.
    destruct (encodeURIComponent_returns (getWhatsAppMessage product))
      as [out Hout];
      [apply getWhatsAppMessage_noSurrogates; split; assumption|].
    rewrite Hout. eexists. reflexivity.
  - intros Hthrown Hclean.
    apply getWhatsAppMessage_noSurrogates in Hclean.
    destruct (encodeURIComponent_returns _ Hclean) as [out Hout].
    rewrite Hout in Hthrown. discriminate Hthrown.
Qed.

Lemma handleWhatsAppEnquiry_one_text_parameter_witness :
  let product :=
    {| enquiry_name := unitsOf "Bagh & Phulkari #1 = new";
       enquiry_price := unitsOf "1,500" |} in
  noSurrogates (enquiry_name product) /\
  noSurrogates (enquiry_price product) /\
  exists link : jsString,
    handleWhatsAppEnquiry product = WindowOpened link (unitsOf "_blank") /\
    countUnit 38%N link = 1%nat.
Proof.
  cbv zeta.
  assert (Hn : noSurrogates (unitsOf "Bagh & Phulkari #1 = new"))
    by (repeat constructor).
  assert (Hp : noSurrogates (unitsOf "1,500")) by (repeat constructor).
  split; [exact Hn|]. split; [exact Hp|].
  pose proof
    (handleWhatsAppEnquiry_one_text_parameter
       {| enquiry_name := unitsOf "Bagh & Phulkari #1 = new";
          enquiry_price := unitsOf "1,500" |}) as [Hopen [Hret _]].
  destruct (Hret Hn Hp) as [link Hlink].
  exists link. split; [exact Hlink|].
  exact (proj1 (proj2 (Hopen link (unitsOf "_blank") Hlink))).
Defined.

(** The link for the first scenario product. Its price text "Rs 1500"
    follows the "Rs " of the template. *)
Example scenario_whatsapp_link :
  handleWhatsAppEnquiry
    {| enquiry_name := unitsOf "Phulkari Dupatta";
       enquiry_price := unitsOf "Rs 1500" |}
  = WindowOpened
      (unitsOf
         ("https://api.whatsapp.com/send?phone=+919510394742&text="
          ++ "I'm%20interested%20in%20Phulkari%20Dupatta%20priced%20at%20Rs%20"
          ++ "Rs%201500.%20Please%20send%20me%20more%20details."))
      (unitsOf "_blank").
Proof. vm_compute. reflexivity. Qed.

(** A name that ends in half a surrogate pair: no window is opened. A
    whole pair, here U+1F600, is written as its four UTF-8 octets. *)
Example scenario_whatsapp_surrogates :
  handleWhatsAppEnquiry
    {| enquiry_name := [66; 55357]%N; enquiry_price := unitsOf "800" |}
  = URIErrorThrown /\
  encodeURIComponent [55357; 56832]%N = Some (unitsOf "%F0%9F%98%80").
Proof. split; vm_compute; reflexivity. Qed.

(* ================================================================= *)
(** ** The initials of the user menu *)

Lemma splitSpaces_word (w : jsString) : spaceFree w -> splitSpaces w = [w].
Proof.
  unfold spaceFree. induction w as [|u w IH]; [reflexivity|].
  intros H. cbn [splitSpaces].
  destruct (u =? 32)%N eqn:E.
  - apply N.eqb_eq in E. exfalso. apply H. left. exact E.
  - rewrite IH; [reflexivity|]. intros Hin. apply H. right. exact Hin.
Qed.

Lemma splitSpaces_cons (w t : jsString) :
  spaceFree w -> splitSpaces (w ++ 32%N :: t)%list = w :: splitSpaces t.
Proof.
  unfold spaceFree. induction w as [|u w IH]; [reflexivity|].
  intros H. cbn [app splitSpaces].
  destruct (u =? 32)%N eqn:E.
  - apply N.eqb_eq in E. exfalso. apply H. left. exact E.
  - rewrite IH; [reflexivity|]. intros Hin. apply H. right. exact Hin.
Qed.

(** Splitting at the spaces undoes joining words with single spaces. *)
Lemma splitSpaces_joinSpaces (w : jsString) (ws : list jsString) :
  Forall spaceFree (w :: ws) -> splitSpaces (joinSpaces (w :: ws)) = w :: ws.
Proof.
  revert w. induction ws as [|w2 ws IH]; intros w Hall.
  - inversion Hall; subst. apply splitSpaces_word. assumption.
  - inversion Hall as [|? ? Hw Hrest]; subst.
    change (joinSpaces (w :: w2 :: ws))
      with (w ++ 32%N :: joinSpaces (w2 :: ws))%list.
    rewrite splitSpaces_cons by exact Hw.
    rewrite IH by exact Hrest. reflexivity.
Qed.

(** X22. For a display name made of words joined by single spaces, the
    first of them not empty, the initials are the upper-cased first code
    unit of the only word, or of the first and of the last word: the
    words in between and the e-mail address play no part. *)
Theorem getInitials_first_and_last
  (toUpperCase : jsString -> jsString) (first : jsString)
  (others : list jsString) (mail : option jsString) :
  Forall spaceFree (first :: others) -> first <> [] ->
  getInitials toUpperCase
    {| displayName := Some (joinSpaces (first :: others));
       email := mail |}
  = match others with
    | [] => toUpperCase (charAt0 first)
    | _ :: _ =>
        (toUpperCase (charAt0 first)
         ++ toUpperCase (charAt0 (last others [])))%list
    end.
Proof.
  intros Hall Hne. unfold getInitials. cbn [displayName].
  pose proof (splitSpaces_joinSpaces first others Hall) as Hsplit.
  destruct (joinSpaces (first :: others)) as [|c rest] eqn:Hname.
  - exfalso. destruct first as [|c f]; [apply Hne; reflexivity|].
    destruct others; discriminate Hname.
  - cbv zeta. rewrite Hsplit. destruct others as [|o os]; [reflexivity|].
    cbn [List.length Nat.eqb hd]. reflexivity.
Qed.

Lemma getInitials_first_and_last_witness :
  let up := map (fun u : codeUnit =>
                   if ((97 <=? u) && (u <=? 122))%N then (u - 32)%N else u) in
  let words := [unitsOf "amrit"; unitsOf "preet"; unitsOf "kaur"] in
  Forall spaceFree words /\ unitsOf "amrit" <> [] /\
  getInitials up
    {| displayName := Some (unitsOf "amrit preet kaur");
       email := Some (unitsOf "x@y.in") |}
  = unitsOf "AK".
Proof.
  cbv zeta.
  assert (Hall :
    Forall spaceFree [unitsOf "amrit"; unitsOf "preet"; unitsOf "kaur"]).
  { repeat constructor; unfold spaceFree; simpl; intros H;
      repeat (destruct H as [H|H]; [discriminate H|]); exact H. }
  assert (Hne : unitsOf "amrit" <> []) by (intros H; discriminate H).
  split; [exact Hall|]. split; [exact Hne|].
  exact (getInitials_first_and_last _ (unitsOf "amrit")
           [unitsOf "preet"; unitsOf "kaur"]
           (Some (unitsOf "x@y.in")) Hall Hne).
Defined.
